(** * Odia Lipi: the transliteration client, the input debouncer, the request
  orchestrator and the history cache.

  A shallow embedding of [src/App.tsx] (the [useDebounce] hook and the [App]
  component), of the Gemini service module ([transliterateToOdia]) and of the
  [HistoryItem] type, followed by the properties proved about them. *)

From Stdlib Require Import List NArith Bool Arith Lia String Ascii Sorted.
From Stdlib Require Import DecimalString.
Import ListNotations.

Set Implicit Arguments.

(* ================================================================== *)
(** ** JavaScript strings and the builtins the program uses *)
(* ================================================================== *)

Module JS.

(** A JavaScript string is a sequence of UTF-16 code units. *)
Definition jsstring : Type := list N.

Fixpoint eqb (a b : jsstring) : bool :=
  match a, b with
  | [], [] => true
  | x :: a', y :: b' => N.eqb x y && eqb a' b'
  | _, _ => false
  end.

(** A string literal of the source whose characters are all ASCII. *)
Definition lit (s : string) : jsstring :=
  map N_of_ascii (list_ascii_of_string s).

(** The double quote character, U+0022. *)
Definition dquote : jsstring := [34%N].

(** The line feed of a template literal, U+000A. *)
Definition LF : jsstring := [10%N].

(** [!!s] for a string: every string but the empty one is truthy. *)
Definition truthy (s : jsstring) : bool :=
  match s with
  | [] => false
  | _ :: _ => true
  end.

(** [a || d] where [a] is a string or [undefined]. *)
Definition or_else (a : option jsstring) (d : jsstring) : jsstring :=
  match a with
  | Some s => if truthy s then s else d
  | None => d
  end.

(** ECMAScript WhiteSpace and LineTerminator code points, the ones
    [String.prototype.trim] strips: TAB, LF, VT, FF, CR, SP, NBSP, the
    space separators of category Zs, LS, PS and the byte order mark. *)
Definition isWhiteSpace (c : N) : bool :=
  ((9 <=? c) && (c <=? 13)
   || (c =? 32) || (c =? 160) || (c =? 5760)
   || ((8192 <=? c) && (c <=? 8202))
   || (c =? 8232) || (c =? 8233) || (c =? 8239) || (c =? 8287)
   || (c =? 12288) || (c =? 65279))%N.

Fixpoint trimStart (s : jsstring) : jsstring :=
  match s with
  | [] => []
  | c :: s' => if isWhiteSpace c then trimStart s' else s
  end.

Definition trimEnd (s : jsstring) : jsstring := rev (trimStart (rev s)).

(** [s.trim()] *)
Definition trim (s : jsstring) : jsstring := trimEnd (trimStart s).

(** A string made of white space only; the empty string is one. *)
Definition whitespace_only (s : jsstring) : bool := forallb isWhiteSpace s.

(** [n.toString()] for a non-negative integer: its decimal digits. *)
Definition number_toString (n : N) : jsstring :=
  lit (NilZero.string_of_uint (N.to_uint n)).

(** A thrown value, seen through the one property the program reads,
    [err.message], which may be [undefined]. *)
Record JsError : Type := { message : option jsstring }.

(** [new Error(msg)] *)
Definition new_Error (msg : jsstring) : JsError := {| message := Some msg |}.

(** How a promise settles. *)
Inductive settled (A : Type) : Type :=
| Fulfilled (a : A)
| Rejected (e : JsError).
Arguments Rejected {A} e.

(** [String.prototype.toLowerCase] restricted to what it does on ASCII
    code units: A-Z go to a-z. On strings of ASCII code units it agrees
    with the runtime's function. *)
Definition ascii_toLowerCase (s : jsstring) : jsstring :=
  map (fun c => if ((65 <=? c) && (c <=? 90))%N then (c + 32)%N else c) s.

End JS.
Import JS.

(* ================================================================== *)
(** ** The transliteration client (services/geminiService) *)
(* ================================================================== *)

Module GeminiService.

Record GenerateContentParameters : Type :=
  { model : jsstring; contents : jsstring }.

(** The response of the service, seen through [response.text]. *)
Record GenerateContentResponse : Type := { text : option jsstring }.

(** Programs over the two effects of the module: a request to the external
    service, whose promise the program awaits, and a line on the console. *)
Inductive prog (R : Type) : Type :=
| Ret (r : R)
| Throw (e : JsError)
| GenerateContent (req : GenerateContentParameters)
    (k : settled GenerateContentResponse -> prog R)
| ConsoleError (label : jsstring) (e : JsError) (k : prog R).
Arguments Throw {R} e.
Arguments GenerateContent {R} req k.
Arguments ConsoleError {R} label e k.

Fixpoint bind {A B : Type} (p : prog A) (f : A -> prog B) : prog B :=
  match p with
  | Ret a => f a
  | Throw e => Throw e
  | GenerateContent req k => GenerateContent req (fun r => bind (k r) f)
  | ConsoleError l e k => ConsoleError l e (bind k f)
  end.

(** [try { p } catch (error) { h error }] *)
Fixpoint try_catch {A : Type} (p : prog A) (h : JsError -> prog A) : prog A :=
  match p with
  | Ret a => Ret a
  | Throw e => h e
  | GenerateContent req k => GenerateContent req (fun r => try_catch (k r) h)
  | ConsoleError l e k => ConsoleError l e (try_catch k h)
  end.

(** [await ai.models.generateContent(req)]: a rejected promise throws. *)
Definition await_generateContent (req : GenerateContentParameters)
  : prog GenerateContentResponse :=
  GenerateContent req (fun r =>
    match r with
    | Fulfilled resp => Ret resp
    | Rejected e => Throw e
    end).

(** [const apiKey = process.env.API_KEY || ''] *)
Definition apiKey (API_KEY : option jsstring) : jsstring := or_else API_KEY [].

Definition MODEL_NAME : jsstring := lit "gemini-3-flash-preview".

Definition KEY_MISSING : jsstring :=
  lit "API Key is missing. Please check your environment configuration.".

Definition FAILED : jsstring :=
  lit "Failed to transliterate text. Please try again.".

(** The two Odia examples of the prompt, as code units:
    ନମସ୍କାର and ମୁଁ ଭଲ ଅଛି. *)
Definition odia_namaskar : jsstring :=
  [2856; 2862; 2872; 2893; 2837; 2878; 2864]%N.
Definition odia_mu_bhala_achi : jsstring :=
  [2862; 2881; 2817; 32; 2861; 2866; 32; 2821; 2843; 2879]%N.

(** The template literal of the prompt, line by line. *)
Definition prompt_of (input : jsstring) : jsstring :=
  LF
  ++ lit "      You are a strict transliteration engine. " ++ LF
  ++ lit "      Task: Convert the following phonetic English text into Odia (Oriya) script." ++ LF
  ++ lit "      Rules:" ++ LF
  ++ lit "      1. Do NOT translate the meaning. Convert the sounds (phonemes) to Odia script." ++ LF
  ++ lit "      2. Maintain punctuation and formatting (newlines, spacing)." ++ LF
  ++ lit "      3. Output ONLY the Odia text. No explanations." ++ LF
  ++ lit "      4. Example: " ++ dquote ++ lit "namaskar" ++ dquote
       ++ lit " -> " ++ dquote ++ odia_namaskar ++ dquote ++ LF
  ++ lit "      5. Example: " ++ dquote ++ lit "mu bhala achi" ++ dquote
       ++ lit " -> " ++ dquote ++ odia_mu_bhala_achi ++ dquote ++ LF
  ++ lit "      " ++ LF
  ++ lit "      Input text:" ++ LF
  ++ lit "      " ++ dquote ++ input ++ dquote ++ LF
  ++ lit "    ".

(** [transliterateToOdia(text)], with the environment variable it reads
    at load time as a parameter. *)
Definition transliterateToOdia (API_KEY : option jsstring) (input : jsstring)
  : prog jsstring :=
  if negb (truthy (apiKey API_KEY)) then Throw (new_Error KEY_MISSING)
  else if negb (truthy (trim input)) then Ret []
  else
    try_catch
      (let prompt := prompt_of input in
       bind (await_generateContent {| model := MODEL_NAME; contents := prompt |})
         (fun response => Ret (or_else (option_map trim (text response)) [])))
      (fun error =>
         ConsoleError (lit "Transliteration error:") error
           (Throw (new_Error FAILED))).

(** What a run of a program does to the outside world, in order. *)
Inductive effect : Type :=
| Requested (req : GenerateContentParameters)
| Logged (label : jsstring) (e : JsError).

Definition is_request (e : effect) : bool :=
  match e with
  | Requested _ => true
  | Logged _ _ => false
  end.

(** The external service: its answer to the [n]-th request of a run. *)
Definition service : Type :=
  nat -> GenerateContentParameters -> settled GenerateContentResponse.

(** Run a program to its settlement against a service; [n] counts the
    requests already made. *)
Fixpoint run_from {R : Type} (svc : service) (n : nat) (p : prog R)
  : list effect * settled R :=
  match p with
  | Ret r => ([], Fulfilled r)
  | Throw e => ([], Rejected e)
  | GenerateContent req k =>
      let (tr, out) := run_from svc (S n) (k (svc n req)) in
      (Requested req :: tr, out)
  | ConsoleError l e k =>
      let (tr, out) := run_from svc n k in
      (Logged l e :: tr, out)
  end.

Definition run {R : Type} (svc : service) (p : prog R) : list effect * settled R :=
  run_from svc 0 p.

(** The requests a run sent to the external service. *)
Definition requests (tr : list effect) : list effect := filter is_request tr.

(** What a call that reaches the service looks like. *)
Definition the_request (input : jsstring) : GenerateContentParameters :=
  {| model := MODEL_NAME; contents := prompt_of input |}.

(** What [transliterateToOdia] makes of an answer of the service: the
    continuation of its [await], as the lemmas below read it off the
    definition. *)
Definition after_await (r : settled GenerateContentResponse) : prog jsstring :=
  match r with
  | Fulfilled resp => Ret (or_else (option_map trim (text resp)) [])
  | Rejected e =>
      ConsoleError (lit "Transliteration error:") e (Throw (new_Error FAILED))
  end.

End GeminiService.

(* ================================================================== *)
(** ** The input debouncer ([useDebounce]) *)
(* ================================================================== *)

Module Debounce.
Section Hook.

(** The hook is generic in the type of the value; React compares the
    dependencies of an effect with [Object.is], which on the values used
    here is equality. *)
Variable T : Type.
Variable T_eq_dec : forall a b : T, {a = b} + {a <> b}.

(** The hook between two renders: the state [debouncedValue], the
    dependencies [value, delay] its effect last ran with, and the timeout
    the effect left pending, as its deadline and the value its callback
    captured. *)
Record hook : Type :=
  { debouncedValue : T;
    deps : T * N;
    handler : option (N * T) }.

(** First render at time [now]: [useState(value)], then the effect sets
    the timeout. *)
Definition mount (now : N) (value : T) (delay : N) : hook :=
  {| debouncedValue := value;
     deps := (value, delay);
     handler := Some ((now + delay)%N, value) |}.

Definition same_deps (a b : T * N) : bool :=
  (if T_eq_dec (fst a) (fst b) then true else false) && N.eqb (snd a) (snd b).

(** A later render at time [now]. When [value] or [delay] changed, the
    cleanup of the previous effect clears its timeout and the effect sets
    a new one; otherwise the effect does not run. *)
Definition render (now : N) (value : T) (delay : N) (h : hook) : hook :=
  if same_deps (value, delay) (deps h) then h
  else {| debouncedValue := debouncedValue h;
          deps := (value, delay);
          handler := Some ((now + delay)%N, value) |}.

(** The clock reaches [now]: a pending timeout whose deadline has come
    runs its callback, [setDebouncedValue(value)]. The second component
    lists the callbacks that ran, each with its time and its value. *)
Definition advance (now : N) (h : hook) : hook * list (N * T) :=
  match handler h with
  | Some (d, v) =>
      if (d <=? now)%N
      then ({| debouncedValue := v; deps := deps h; handler := None |}, [(d, v)])
      else (h, [])
  | None => (h, [])
  end.

(** A sequence of updates of [value], each at its time. *)
Fixpoint updates (delay : N) (us : list (N * T)) (h : hook)
  : hook * list (N * T) :=
  match us with
  | [] => (h, [])
  | (t, v) :: us' =>
      let (h1, l1) := advance t h in
      let (h2, l2) := updates delay us' (render t v delay h1) in
      (h2, l1 ++ l2)
  end.

(** The updates, then the clock runs on to [t_end]. *)
Definition observe (delay : N) (us : list (N * T)) (t_end : N) (h : hook)
  : hook * list (N * T) :=
  let (h1, l1) := updates delay us h in
  let (h2, l2) := advance t_end h1 in
  (h2, l1 ++ l2).

(** Each update comes less than [delay] after the one before it, and
    carries a value other than the one before it. *)
Fixpoint burst (delay : N) (t0 : N) (v0 : T) (us : list (N * T)) : Prop :=
  match us with
  | [] => True
  | (t, v) :: us' =>
      (t0 <= t)%N /\ (t < t0 + delay)%N /\ v <> v0 /\ burst delay t v us'
  end.

(** The updates come in the order of their times, none before [t0]. *)
Fixpoint ascending (t0 : N) (us : list (N * T)) : Prop :=
  match us with
  | [] => True
  | (t, _) :: us' => (t0 <= t)%N /\ ascending t us'
  end.


(** The pending timeout, if any, carries the value the hook was last
    rendered with and is due within [delay] of time [t]; with no timeout
    pending the settled value is that value. *)
Definition caught_up (delay : N) (t : N) (v : T) (h : hook) : Prop :=
  deps h = (v, delay)
  /\ match handler h with
     | Some (d, w) => w = v /\ (d <= t + delay)%N
     | None => debouncedValue h = v
     end.

End Hook.
End Debounce.

(* ================================================================== *)
(** ** The history cache *)
(* ================================================================== *)

Module History.

Record HistoryItem : Type :=
  { id : jsstring;
    original : jsstring;
    transliterated : jsstring;
    timestamp : N }.

Section Cache.

(** [String.prototype.toLowerCase] of the runtime. *)
Variable toLowerCase : jsstring -> jsstring.

(** [a.toLowerCase() !== b.toLowerCase()], negated. *)
Definition same_original (a b : jsstring) : bool :=
  eqb (toLowerCase a) (toLowerCase b).

(** The updater [handleTransliterate] passes to [setHistory]; [now] is
    what [Date.now()] returns when it runs. *)
Definition upsert (now : N) (input result : jsstring)
    (prev : list HistoryItem) : list HistoryItem :=
  let newItem : HistoryItem :=
    {| id := number_toString now;
       original := input;
       transliterated := result;
       timestamp := now |} in
  let filtered :=
    filter (fun p => negb (same_original (original p) input)) prev in
  firstn 10 (newItem :: filtered).

(** The entry an upsert creates. *)
Definition newItem (now : N) (input result : jsstring) : HistoryItem :=
  {| id := number_toString now;
     original := input;
     transliterated := result;
     timestamp := now |}.

(** [onClear]: [setHistory([])]. *)
Definition clear (prev : list HistoryItem) : list HistoryItem := [].

(** The number of entries whose original is [input] but for case. *)
Definition occurrences (input : jsstring) (h : list HistoryItem) : nat :=
  List.length (filter (fun p => same_original (original p) input) h).

(** No two entries share an original but for case. *)
Definition distinct_originals (h : list HistoryItem) : Prop :=
  NoDup (map (fun p => toLowerCase (original p)) h).

End Cache.
End History.

(* ================================================================== *)
(** ** The request orchestrator (the [App] component) *)
(* ================================================================== *)

Module App.
Import GeminiService History.

(** [Object.is] on two strings. *)
Definition Object_is : forall a b : jsstring, {a = b} + {a <> b} :=
  list_eq_dec N.eq_dec.

(** A call of [handleTransliterate] suspended at its [await]: the text it
    was called with, and the rest of [transliterateToOdia], which waits
    for the answer of the external service. *)
Record request : Type :=
  { rid : nat;
    rtext : jsstring;
    rcont : settled GenerateContentResponse -> prog jsstring }.

(** The component between two events. The first six fields are its
    [useState] cells ([isCopied], which only the copy button uses, is left
    out); [debounced] is the hook [useDebounce(inputText, 800)];
    [effectDeps] holds the dependencies [debouncedInput, autoMode] the
    auto-transliteration effect last ran with ([handleTransliterate] is the
    same function on every render); [clock] is the time; [inflight] the
    suspended calls; [calls] the arguments [transliterateToOdia] was called
    with so far and [effects] what those calls did to the outside world. *)
Record state : Type :=
  { inputText : jsstring;
    outputText : jsstring;
    isLoading : bool;
    error : option jsstring;
    history : list HistoryItem;
    autoMode : bool;
    debounced : Debounce.hook jsstring;
    effectDeps : jsstring * bool;
    clock : N;
    inflight : list request;
    nextRid : nat;
    calls : list jsstring;
    effects : list effect }.

Definition setInputText (v : jsstring) (s : state) : state :=
  {| inputText := v; outputText := outputText s; isLoading := isLoading s;
     error := error s; history := history s; autoMode := autoMode s;
     debounced := debounced s; effectDeps := effectDeps s; clock := clock s;
     inflight := inflight s; nextRid := nextRid s; calls := calls s;
     effects := effects s |}.

Definition setOutputText (v : jsstring) (s : state) : state :=
  {| inputText := inputText s; outputText := v; isLoading := isLoading s;
     error := error s; history := history s; autoMode := autoMode s;
     debounced := debounced s; effectDeps := effectDeps s; clock := clock s;
     inflight := inflight s; nextRid := nextRid s; calls := calls s;
     effects := effects s |}.

Definition setIsLoading (v : bool) (s : state) : state :=
  {| inputText := inputText s; outputText := outputText s; isLoading := v;
     error := error s; history := history s; autoMode := autoMode s;
     debounced := debounced s; effectDeps := effectDeps s; clock := clock s;
     inflight := inflight s; nextRid := nextRid s; calls := calls s;
     effects := effects s |}.

Definition setError (v : option jsstring) (s : state) : state :=
  {| inputText := inputText s; outputText := outputText s;
     isLoading := isLoading s; error := v; history := history s;
     autoMode := autoMode s; debounced := debounced s;
     effectDeps := effectDeps s; clock := clock s; inflight := inflight s;
     nextRid := nextRid s; calls := calls s; effects := effects s |}.

(** [setHistory(updater)] *)
Definition setHistory (updater : list HistoryItem -> list HistoryItem)
    (s : state) : state :=
  {| inputText := inputText s; outputText := outputText s;
     isLoading := isLoading s; error := error s;
     history := updater (history s); autoMode := autoMode s;
     debounced := debounced s; effectDeps := effectDeps s; clock := clock s;
     inflight := inflight s; nextRid := nextRid s; calls := calls s;
     effects := effects s |}.

Definition setAutoMode (v : bool) (s : state) : state :=
  {| inputText := inputText s; outputText := outputText s;
     isLoading := isLoading s; error := error s; history := history s;
     autoMode := v; debounced := debounced s; effectDeps := effectDeps s;
     clock := clock s; inflight := inflight s; nextRid := nextRid s;
     calls := calls s; effects := effects s |}.

Definition with_debounced (h : Debounce.hook jsstring) (s : state) : state :=
  {| inputText := inputText s; outputText := outputText s;
     isLoading := isLoading s; error := error s; history := history s;
     autoMode := autoMode s; debounced := h; effectDeps := effectDeps s;
     clock := clock s; inflight := inflight s; nextRid := nextRid s;
     calls := calls s; effects := effects s |}.

Definition with_effectDeps (d : jsstring * bool) (s : state) : state :=
  {| inputText := inputText s; outputText := outputText s;
     isLoading := isLoading s; error := error s; history := history s;
     autoMode := autoMode s; debounced := debounced s; effectDeps := d;
     clock := clock s; inflight := inflight s; nextRid := nextRid s;
     calls := calls s; effects := effects s |}.

Definition with_clock (t : N) (s : state) : state :=
  {| inputText := inputText s; outputText := outputText s;
     isLoading := isLoading s; error := error s; history := history s;
     autoMode := autoMode s; debounced := debounced s;
     effectDeps := effectDeps s; clock := t; inflight := inflight s;
     nextRid := nextRid s; calls := calls s; effects := effects s |}.

(** The outside world sees the effects [tr]. *)
Definition perform (tr : list effect) (s : state) : state :=
  {| inputText := inputText s; outputText := outputText s;
     isLoading := isLoading s; error := error s; history := history s;
     autoMode := autoMode s; debounced := debounced s;
     effectDeps := effectDeps s; clock := clock s; inflight := inflight s;
     nextRid := nextRid s; calls := calls s; effects := effects s ++ tr |}.

(** [transliterateToOdia] is called with [input]. *)
Definition called (input : jsstring) (s : state) : state :=
  {| inputText := inputText s; outputText := outputText s;
     isLoading := isLoading s; error := error s; history := history s;
     autoMode := autoMode s; debounced := debounced s;
     effectDeps := effectDeps s; clock := clock s; inflight := inflight s;
     nextRid := nextRid s; calls := calls s ++ [input];
     effects := effects s |}.

(** A call suspends at its [await]. *)
Definition suspend (input : jsstring)
    (k : settled GenerateContentResponse -> prog jsstring) (s : state) : state :=
  {| inputText := inputText s; outputText := outputText s;
     isLoading := isLoading s; error := error s; history := history s;
     autoMode := autoMode s; debounced := debounced s;
     effectDeps := effectDeps s; clock := clock s;
     inflight := inflight s ++ [{| rid := nextRid s; rtext := input; rcont := k |}];
     nextRid := S (nextRid s); calls := calls s; effects := effects s |}.

(** The suspended call [r] is resumed, and no longer in flight. *)
Definition resumed (r : nat) (s : state) : state :=
  {| inputText := inputText s; outputText := outputText s;
     isLoading := isLoading s; error := error s; history := history s;
     autoMode := autoMode s; debounced := debounced s;
     effectDeps := effectDeps s; clock := clock s;
     inflight := filter (fun q => negb (Nat.eqb (rid q) r)) (inflight s);
     nextRid := nextRid s; calls := calls s; effects := effects s |}.

(** Where a program of the client stands once it has run as far as it can
    without an answer from the service. *)
Inductive polled : Type :=
| Settled (out : settled jsstring)
| Awaiting (k : settled GenerateContentResponse -> prog jsstring).

Fixpoint poll (p : prog jsstring) : list effect * polled :=
  match p with
  | Ret r => ([], Settled (Fulfilled r))
  | Throw e => ([], Settled (Rejected e))
  | GenerateContent req k => ([Requested req], Awaiting k)
  | ConsoleError l e k =>
      let (tr, r) := poll k in (Logged l e :: tr, r)
  end.

Section Component.

(** [String.prototype.toLowerCase] of the runtime, and the environment
    variable [process.env.API_KEY]. *)
Variable toLowerCase : jsstring -> jsstring.
Variable API_KEY : option jsstring.

(** [handleTransliterate(text)] from the point where the promise of
    [transliterateToOdia(text)] has settled with [out]: the rest of the
    [try], the [catch] and the [finally]. *)
Definition handleTransliterate_settled (input : jsstring)
    (out : settled jsstring) (s : state) : state :=
  let s' :=
    match out with
    | Fulfilled result =>
        let s1 := setOutputText result s in
        if (2 <? List.length input) && truthy result
        then setHistory (upsert toLowerCase (clock s1) input result) s1
        else s1
    | Rejected err =>
        setError (Some (or_else (message err) (lit "Something went wrong."))) s
    end in
  setIsLoading false s'.

(** The client runs [p] as far as it can: it either settles, and
    [handleTransliterate] goes on at once, or it waits for the service. *)
Definition drive (input : jsstring) (p : prog jsstring) (s : state) : state :=
  let (tr, r) := poll p in
  let s1 := perform tr s in
  match r with
  | Settled out => handleTransliterate_settled input out s1
  | Awaiting k => suspend input k s1
  end.

(** [handleTransliterate(text)] up to its [await]. *)
Definition handleTransliterate (input : jsstring) (s : state) : state :=
  if negb (truthy (trim input)) then setOutputText [] s
  else
    let s1 := setIsLoading true s in
    let s2 := setError None s1 in
    drive input (transliterateToOdia API_KEY input) (called input s2).

(** The external service answers the suspended call [r]. *)
Definition reply (r : nat) (answer : settled GenerateContentResponse)
    (s : state) : state :=
  match find (fun q => Nat.eqb (rid q) r) (inflight s) with
  | Some q => drive (rtext q) (rcont q answer) (resumed r s)
  | None => s
  end.

(** The body of the auto-transliteration effect. *)
Definition autoEffect (s : state) : state :=
  let debouncedInput := Debounce.debouncedValue (debounced s) in
  if autoMode s && truthy debouncedInput
  then handleTransliterate debouncedInput s
  else if negb (truthy debouncedInput) then setOutputText [] s
  else s.

Definition same_effectDeps (a b : jsstring * bool) : bool :=
  eqb (fst a) (fst b) && Bool.eqb (snd a) (snd b).

(** A render after a state change: the effect of [useDebounce] runs when
    [inputText] changed, then the auto-transliteration effect runs when
    [debouncedInput] or [autoMode] changed. *)
Definition render (s : state) : state :=
  let s1 :=
    with_debounced
      (Debounce.render Object_is (clock s) (inputText s) 800 (debounced s)) s in
  let deps := (Debounce.debouncedValue (debounced s1), autoMode s1) in
  if same_effectDeps deps (effectDeps s1) then s1
  else autoEffect (with_effectDeps deps s1).

(** The first render, at time [t0], and the two effects it runs. *)
Definition mount (t0 : N) : state :=
  autoEffect
    {| inputText := []; outputText := []; isLoading := false; error := None;
       history := []; autoMode := true;
       debounced := Debounce.mount t0 [] 800;
       effectDeps := ([], true); clock := t0;
       inflight := []; nextRid := 0; calls := []; effects := [] |}.

(** What can happen to the component: the user edits the input, toggles
    the mode, presses the manual trigger, clears the text, picks the
    [i]-th entry of the history panel or clears the history; time passes;
    the external service answers a request. *)
Inductive event : Type :=
| Edit (v : jsstring)
| ToggleMode
| ClickTransliterate
| ClearAll
| Select (i : nat)
| ClearHistory
| Elapse (dt : N)
| Reply (r : nat) (answer : settled GenerateContentResponse).

Definition step (s : state) (e : event) : state :=
  match e with
  | Edit v => render (setInputText v s)
  | ToggleMode => render (setAutoMode (negb (autoMode s)) s)
  | ClickTransliterate =>
      (* the button is rendered in manual mode only, and disabled while
         loading or when the input is empty *)
      if autoMode s || (isLoading s || negb (truthy (inputText s))) then s
      else render (handleTransliterate (inputText s) s)
  | ClearAll => render (setError None (setOutputText [] (setInputText [] s)))
  | Select i =>
      match nth_error (history s) i with
      | Some item =>
          render (setOutputText (transliterated item)
                    (setInputText (original item) s))
      | None => s
      end
  | ClearHistory => render (setHistory clear s)
  | Elapse dt =>
      let target := (clock s + dt)%N in
      match Debounce.advance target (debounced s) with
      | (h, (d, _) :: _) =>
          with_clock target (render (with_debounced h (with_clock d s)))
      | (_, []) => with_clock target s
      end
  | Reply r answer => render (reply r answer s)
  end.

Definition steps (s : state) (es : list event) : state := fold_left step es s.

(** The requests the external service has received. *)
Definition network (s : state) : list effect := requests (effects s).

(** Both effects have run for the current values of their dependencies,
    and the identifiers of the suspended calls are below the next one. *)
Definition settled_render (s : state) : Prop :=
  Debounce.deps (debounced s) = (inputText s, 800%N)
  /\ effectDeps s = (Debounce.debouncedValue (debounced s), autoMode s)
  /\ Forall (fun q => rid q < nextRid s) (inflight s).

(** What a call of [handleTransliterate] never touches: the input, the
    mode, the debouncer, the dependencies the effect last ran with, and the
    clock. *)
Definition frame (s s' : state) : Prop :=
  inputText s' = inputText s
  /\ autoMode s' = autoMode s
  /\ debounced s' = debounced s
  /\ effectDeps s' = effectDeps s
  /\ clock s' = clock s.

(** The states the component can be in: the first render, then events. *)
Inductive reachable : state -> Prop :=
| reachable_mount (t0 : N) : reachable (mount t0)
| reachable_step (s : state) (e : event) :
    reachable s -> reachable (step s e).

End Component.

(** A suspended call carries an input that is not blank and waits at the
    [await] of [transliterateToOdia]. *)
Definition request_ok (q : request) : Prop :=
  truthy (trim (rtext q)) = true /\ forall a, rcont q a = after_await a.

(** What holds of an entry the component has put in the history, at time
    [now]. *)
Definition entry_ok (now : N) (p : HistoryItem) : Prop :=
  2 < List.length (original p)
  /\ truthy (trim (original p)) = true
  /\ truthy (transliterated p) = true
  /\ trim (transliterated p) = transliterated p
  /\ id p = number_toString (timestamp p)
  /\ (timestamp p <= now)%N.

(** No entry is older than one that comes after it. *)
Definition newest_first (h : list HistoryItem) : Prop :=
  StronglySorted (fun a b => (timestamp b <= timestamp a)%N) h.

(** The requests the service has received are the prompts of the texts the
    client was called with, in order; without a credential there are
    none. *)
Definition one_request_per_call (API_KEY : option jsstring) (s : state) : Prop :=
  network s
  = if truthy (apiKey API_KEY)
    then map (fun t => Requested (the_request t)) (calls s)
    else [].

(** What the component keeps true from its first render on. *)
Definition core (API_KEY : option jsstring) (s : state) : Prop :=
  Forall request_ok (inflight s)
  /\ Forall (fun t => truthy (trim t) = true) (calls s)
  /\ one_request_per_call API_KEY s
  /\ (truthy (apiKey API_KEY) = false -> inflight s = [])
  /\ match Debounce.handler (debounced s) with
     | Some (d, _) => (clock s <= d)%N
     | None => True
     end
  /\ Forall (entry_ok (clock s)) (history s)
  /\ newest_first (history s).

(** The user goes on typing: after each pause the input is edited. *)
Definition keystrokes (us : list (N * jsstring)) : list event :=
  flat_map (fun u => [Elapse (fst u); Edit (snd u)]) us.

(** Each pause is shorter than the 800 ms of the debouncer and each edit
    changes the input. *)
Fixpoint quick (v0 : jsstring) (us : list (N * jsstring)) : Prop :=
  match us with
  | [] => True
  | (gap, v) :: us' => (gap < 800)%N /\ v <> v0 /\ quick v us'
  end.

(** With nothing in flight the loading indicator is off. *)
Definition idle_not_loading (s : state) : Prop :=
  inflight s = [] -> isLoading s = false.

End App.

(* ================================================================== *)
(** ** The history panel ([components/HistoryPanel]) and the banner *)
(* ================================================================== *)

Module HistoryPanel.
Import History.

(** A row of the list: its React key and the two texts it shows. A click
    on the row at index [i] calls [onSelect] with the entry at index [i]. *)
Record row : Type :=
  { key : jsstring;
    shown_original : jsstring;
    shown_transliterated : jsstring }.

(** What the component renders: nothing ([null]) for an empty history,
    otherwise the header with its clear button and one row per entry, in
    the order of the history. *)
Definition HistoryPanel (history : list HistoryItem) : option (list row) :=
  if Nat.eqb (List.length history) 0 then None
  else Some (map (fun item =>
                    {| key := id item;
                       shown_original := original item;
                       shown_transliterated := transliterated item |})
                 history).

End HistoryPanel.

Module Banner.

(** [const hasApiKey = !!process.env.API_KEY] of the [App] component; the
    banner "API Key missing" is rendered when it is false. *)
Definition hasApiKey (API_KEY : option jsstring) : bool :=
  match API_KEY with
  | Some k => truthy k
  | None => false
  end.

End Banner.

(* ================================================================== *)
(** ** The copy button ([copyToClipboard]) *)
(* ================================================================== *)

Module Clipboard.

(** The part of the component the copy button works on: the state
    [isCopied]; the deadlines of the pending timeouts
    [setTimeout(() => setIsCopied(false), 2000)]; the calls of
    [navigator.clipboard.writeText] whose promise has not settled, each with
    the text it was given; what those calls wrote; what was reported on the
    console; the time. None of it is read by the rest of the component. *)
Record state : Type :=
  { isCopied : bool;
    resets : list N;
    writing : list (nat * jsstring);
    nextWrite : nat;
    written : list jsstring;
    failures : list JsError;
    clock : N }.

Definition init (t0 : N) : state :=
  {| isCopied := false; resets := []; writing := []; nextWrite := 0;
     written := []; failures := []; clock := t0 |}.

(** The button is clicked while the output is [outputText]; the browser
    fulfils or rejects the promise of a write; time passes. *)
Inductive event : Type :=
| Click (outputText : jsstring)
| Written (w : nat)
| Refused (w : nat) (err : JsError)
| Elapse (dt : N).

Definition pending (w : nat) (c : state) : option (nat * jsstring) :=
  find (fun p => Nat.eqb (fst p) w) (writing c).

Definition without (w : nat) (l : list (nat * jsstring)) : list (nat * jsstring) :=
  filter (fun p => negb (Nat.eqb (fst p) w)) l.

Definition step (c : state) (e : event) : state :=
  match e with
  | Click outputText =>
      (* if (!outputText) return; then the call of writeText *)
      if negb (truthy outputText) then c
      else {| isCopied := isCopied c; resets := resets c;
              writing := writing c ++ [(nextWrite c, outputText)];
              nextWrite := S (nextWrite c);
              written := written c; failures := failures c;
              clock := clock c |}
  | Written w =>
      match pending w c with
      | Some (_, t) =>
          (* setIsCopied(true); setTimeout(() => setIsCopied(false), 2000) *)
          {| isCopied := true;
             resets := resets c ++ [(clock c + 2000)%N];
             writing := without w (writing c);
             nextWrite := nextWrite c;
             written := written c ++ [t]; failures := failures c;
             clock := clock c |}
      | None => c
      end
  | Refused w err =>
      match pending w c with
      | Some _ =>
          (* console.error('Failed to copy', err) *)
          {| isCopied := isCopied c; resets := resets c;
             writing := without w (writing c);
             nextWrite := nextWrite c;
             written := written c; failures := failures c ++ [err];
             clock := clock c |}
      | None => c
      end
  | Elapse dt =>
      let target := (clock c + dt)%N in
      let due := filter (fun d => (d <=? target)%N) (resets c) in
      {| isCopied := match due with [] => isCopied c | _ :: _ => false end;
         resets := filter (fun d => negb (d <=? target)%N) (resets c);
         writing := writing c; nextWrite := nextWrite c;
         written := written c; failures := failures c;
         clock := target |}
  end.

Inductive reachable : state -> Prop :=
| reachable_init (t0 : N) : reachable (init t0)
| reachable_step (c : state) (e : event) :
    reachable c -> reachable (step c e).

(** Every pending timeout is due after now and within 2000 ms, and while
    "Copied" is shown one is pending. *)
Definition acknowledged (c : state) : Prop :=
  Forall (fun d => (clock c < d)%N /\ (d <= clock c + 2000)%N) (resets c)
  /\ (isCopied c = true -> resets c <> []).

End Clipboard.

(* ================================================================== *)
(** ** Sample data *)
(* ================================================================== *)

Module Sample.
Import GeminiService History.

(** A history of ten entries, [word10] the most recent and [word1] the
    oldest, built by ten upserts. *)
Definition ten_entries : list HistoryItem :=
  fold_left
    (fun h n => upsert ascii_toLowerCase n (lit "word" ++ number_toString n)
                  odia_namaskar h)
    [1; 2; 3; 4; 5; 6; 7; 8; 9; 10]%N [].

(** A credential, and a service answer with the text [s]. *)
Definition secret : option jsstring := Some (lit "secret").

Definition answer (s : jsstring) : settled GenerateContentResponse :=
  Fulfilled {| text := Some s |}.

(** କ and କବ, as code units. *)
Definition odia_ka : jsstring := [2837%N].
Definition odia_kaba : jsstring := [2837%N; 2860%N].

(** The component in automatic mode, first rendered at time 0. *)
Definition fresh : App.state := App.mount ascii_toLowerCase secret 0.

Definition run_events (es : list App.event) : App.state :=
  App.steps ascii_toLowerCase secret fresh es.

(** The user types "ka", pauses, types on to "kab", pauses: two requests
    are in flight, 0 for "ka" and 1 for "kab". *)
Definition two_in_flight : list App.event :=
  [App.Edit (lit "ka"); App.Elapse 800; App.Edit (lit "kab"); App.Elapse 800].

(** The service answers the second request first. *)
Definition race : list App.event :=
  two_in_flight
  ++ [App.Reply 1 (answer odia_kaba); App.Reply 0 (answer odia_ka)].

(** "namaskar" is typed and transliterated: it is shown, and in the
    history. *)
Definition namaskar_done : list App.event :=
  [App.Edit (lit "namaskar"); App.Elapse 800; App.Reply 0 (answer odia_namaskar)].

(** In manual mode "namaskar" is typed and the debouncer settles on it;
    nothing is sent. *)
Definition settled_in_manual : list App.event :=
  [App.ToggleMode; App.Edit (lit "namaskar"); App.Elapse 800; App.Elapse 5000].

(** After "namaskar" was transliterated the user clears the text and
    waits; the entry is still in the history. *)
Definition cleared : list App.event :=
  namaskar_done ++ [App.ClearAll; App.Elapse 800].

(** Two transliterations one after the other: "namaskar" at time 800,
    "mu bhala achi" at time 1600. *)
Definition two_entries : list App.event :=
  namaskar_done
  ++ [App.Edit (lit "mu bhala achi"); App.Elapse 800;
      App.Reply 1 (answer odia_mu_bhala_achi)].

End Sample.

(* ================================================================== *)
(** ** Properties of the string builtins *)
(* ================================================================== *)

Import GeminiService History.

Unset Implicit Arguments.

Lemma eqb_eq (a b : jsstring) : eqb a b = true <-> a = b.
Proof.
  revert b; induction a as [|x a IH]; intros [|y b]; simpl;
    try (split; [discriminate | congruence]); try tauto.
  rewrite andb_true_iff, N.eqb_eq, IH.
  split; [intros [-> ->]; reflexivity | intros E; injection E; auto].
Qed.

Lemma eqb_refl (a : jsstring) : eqb a a = true.
Proof. apply eqb_eq; reflexivity. Qed.

Lemma trimStart_nil (s : jsstring) :
  trimStart s = [] <-> whitespace_only s = true.
Proof.
  induction s as [|c s IH]; simpl; [tauto|].
  destruct (isWhiteSpace c); simpl; [exact IH|].
  split; discriminate.
Qed.

Lemma trimStart_head (s : jsstring) c t :
  trimStart s = c :: t -> isWhiteSpace c = false.
Proof.
  induction s as [|x s IH]; simpl; [discriminate|].
  destruct (isWhiteSpace x) eqn:E; [exact IH|].
  intros H; injection H as -> _; exact E.
Qed.

Lemma whitespace_only_rev (s : jsstring) :
  whitespace_only (rev s) = whitespace_only s.
Proof.
  unfold whitespace_only.
  induction s as [|c s IH]; simpl; [reflexivity|].
  rewrite forallb_app, IH; simpl.
  rewrite andb_true_r; apply andb_comm.
Qed.

(** [!text.trim()] holds exactly of the strings made of white space. *)
Lemma trim_blank (s : jsstring) :
  truthy (trim s) = false <-> whitespace_only s = true.
Proof.
  unfold trim, trimEnd.
  split.
  - intros H.
    assert (E : trimStart (rev (trimStart s)) = []).
    { destruct (trimStart (rev (trimStart s))) as [|c t] eqn:E; [reflexivity|].
      destruct (rev (c :: t)) eqn:R; [|discriminate H].
      apply (f_equal (@rev N)) in R; rewrite rev_involutive in R; discriminate R. }
    apply trimStart_nil in E; rewrite whitespace_only_rev in E.
    destruct (trimStart s) as [|c t] eqn:S; [apply trimStart_nil; exact S|].
    apply trimStart_head in S.
    simpl in E; rewrite S in E; discriminate E.
  - intros H; apply trimStart_nil in H; rewrite H; reflexivity.
Qed.

Lemma trim_not_blank (s : jsstring) :
  truthy (trim s) = true <-> whitespace_only s = false.
Proof.
  pose proof (trim_blank s) as B.
  destruct (truthy (trim s)), (whitespace_only s); intuition congruence.
Qed.

Lemma apiKey_absent (API_KEY : option jsstring) :
  truthy (apiKey API_KEY) = false <-> API_KEY = None \/ API_KEY = Some [].
Proof.
  unfold apiKey, or_else.
  destruct API_KEY as [[|c k]|]; simpl; split; intros H; auto;
    try discriminate; destruct H as [H|H]; discriminate H.
Qed.

(* ================================================================== *)
(** ** Properties of the transliteration client *)
(* ================================================================== *)

Lemma transliterateToOdia_absent API_KEY input :
  truthy (apiKey API_KEY) = false ->
  transliterateToOdia API_KEY input = Throw (new_Error KEY_MISSING).
Proof. intros H; unfold transliterateToOdia; rewrite H; reflexivity. Qed.

Lemma transliterateToOdia_blank API_KEY input :
  truthy (apiKey API_KEY) = true -> whitespace_only input = true ->
  transliterateToOdia API_KEY input = Ret [].
Proof.
  intros K W; apply trim_blank in W.
  unfold transliterateToOdia; rewrite K, W; reflexivity.
Qed.

Lemma transliterateToOdia_request API_KEY input :
  truthy (apiKey API_KEY) = true -> whitespace_only input = false ->
  exists k, transliterateToOdia API_KEY input = GenerateContent (the_request input) k
            /\ forall r, k r = after_await r.
Proof.
  intros K W; apply trim_not_blank in W.
  unfold transliterateToOdia; rewrite K, W; simpl.
  eexists; split; [reflexivity|].
  intros [resp|e]; reflexivity.
Qed.

Lemma run_request API_KEY input (svc : service) :
  truthy (apiKey API_KEY) = true -> whitespace_only input = false ->
  run svc (transliterateToOdia API_KEY input)
  = let (tr, out) := run_from svc 1 (after_await (svc 0 (the_request input))) in
    (Requested (the_request input) :: tr, out).
Proof.
  intros K W.
  destruct (transliterateToOdia_request API_KEY input K W) as (k & E & Hk).
  rewrite E; unfold run; simpl; rewrite Hk; reflexivity.
Qed.

(** The run against a service that answers the request. *)
Lemma run_answer API_KEY input (svc : service) resp :
  truthy (apiKey API_KEY) = true -> whitespace_only input = false ->
  svc 0 (the_request input) = Fulfilled resp ->
  run svc (transliterateToOdia API_KEY input)
  = ([Requested (the_request input)],
     Fulfilled (or_else (option_map trim (text resp)) [])).
Proof.
  intros K W A; rewrite (run_request _ _ svc K W), A; reflexivity.
Qed.

(** C2, as the claim words it, fails: without a credential a blank input
    does not return the empty string, it throws, and an input that is not
    blank sends no request at all. *)
Lemma C2_blank_input_without_credential :
  whitespace_only [32%N] = true
  /\ run (fun _ _ => Fulfilled {| text := None |})
         (transliterateToOdia None [32%N])
     = ([], Rejected (new_Error KEY_MISSING))
  /\ snd (run (fun _ _ => Fulfilled {| text := None |})
              (transliterateToOdia None [32%N]))
     <> Fulfilled []
  /\ whitespace_only (lit "namaskar") = false
  /\ List.length
       (requests (fst (run (fun _ _ => Fulfilled {| text := None |})
                           (transliterateToOdia None (lit "namaskar")))))
     <> 1.
Proof.
  repeat split; try reflexivity; simpl; discriminate.
Qed.

(** C2 (amended): when a credential is present, [transliterateToOdia]
    returns the empty string for every input made of white space only (the
    empty input included) and does nothing to the outside world, no request
    to the external service in particular; for every other input one run
    sends exactly one request, the one that carries the prompt built from
    the input. *)
Theorem C2_blank_input_short_circuit :
  forall (API_KEY : option jsstring) (svc : service) (input : jsstring),
    truthy (apiKey API_KEY) = true ->
    (whitespace_only input = true ->
       run svc (transliterateToOdia API_KEY input) = ([], Fulfilled []))
    /\ (whitespace_only input = false ->
          requests (fst (run svc (transliterateToOdia API_KEY input)))
          = [Requested (the_request input)]).
Proof.
  intros API_KEY svc input K; split; intros W.
  - rewrite (transliterateToOdia_blank _ _ K W); reflexivity.
  - rewrite (run_request _ _ svc K W).
    destruct (svc 0 (the_request input)) as [resp|e]; reflexivity.
Qed.

Lemma C2_blank_input_short_circuit_witness :
  run (fun _ _ => Rejected {| message := None |})
      (transliterateToOdia (Some (lit "secret")) (lit "  "))
  = ([], Fulfilled [])
  /\ requests (fst (run (fun _ _ => Fulfilled {| text := Some odia_namaskar |})
                        (transliterateToOdia (Some (lit "secret")) (lit "namaskar"))))
     = [Requested (the_request (lit "namaskar"))].
Proof.
  split.
  - apply (C2_blank_input_short_circuit (Some (lit "secret"))
             (fun _ _ => Rejected {| message := None |}) (lit "  "));
      reflexivity.
  - apply (C2_blank_input_short_circuit (Some (lit "secret"))
             (fun _ _ => Fulfilled {| text := Some odia_namaskar |})
             (lit "namaskar"));
      reflexivity.
Defined.

(** C5: when the call to the external service fails, whatever the cause, a
    run of [transliterateToOdia] sends that one request and no other, logs
    the cause on the console and throws an error whose message is the fixed
    text "Failed to transliterate text. Please try again.", in which the
    cause does not appear. *)
Theorem C5_service_failure_is_generic :
  forall (API_KEY : option jsstring) (svc : service) (input : jsstring)
         (cause : JsError),
    truthy (apiKey API_KEY) = true ->
    whitespace_only input = false ->
    svc 0 (the_request input) = Rejected cause ->
    run svc (transliterateToOdia API_KEY input)
    = ([Requested (the_request input);
        Logged (lit "Transliteration error:") cause],
       Rejected (new_Error FAILED))
    /\ requests (fst (run svc (transliterateToOdia API_KEY input)))
       = [Requested (the_request input)].
Proof.
  intros API_KEY svc input cause K W F.
  rewrite (run_request _ _ svc K W), F; split; reflexivity.
Qed.

Lemma C5_service_failure_is_generic_witness :
  run (fun n _ => match n with
                  | 0 => Rejected {| message := Some (lit "503 overloaded") |}
                  | S _ => Fulfilled {| text := Some odia_namaskar |}
                  end)
      (transliterateToOdia (Some (lit "secret")) (lit "namaskar"))
  = ([Requested (the_request (lit "namaskar"));
      Logged (lit "Transliteration error:")
        {| message := Some (lit "503 overloaded") |}],
     Rejected (new_Error FAILED)).
Proof.
  apply (C5_service_failure_is_generic (Some (lit "secret"))
           (fun n _ => match n with
                       | 0 => Rejected {| message := Some (lit "503 overloaded") |}
                       | S _ => Fulfilled {| text := Some odia_namaskar |}
                       end)
           (lit "namaskar") {| message := Some (lit "503 overloaded") |});
    reflexivity.
Defined.

(** C10: when the credential is absent ([process.env.API_KEY] undefined or
    empty), [transliterateToOdia] throws the configuration error for every
    input, the empty one and those made of white space included, and does
    nothing to the outside world: the check of the credential comes before
    the check of the input. *)
Theorem C10_credential_check_comes_first :
  forall (API_KEY : option jsstring),
    truthy (apiKey API_KEY) = false ->
    forall (svc : service) (input : jsstring),
      run svc (transliterateToOdia API_KEY input)
      = ([], Rejected (new_Error KEY_MISSING)).
Proof.
  intros API_KEY K svc input.
  rewrite (transliterateToOdia_absent _ _ K); reflexivity.
Qed.

Lemma C10_credential_check_comes_first_witness :
  run (fun _ _ => Fulfilled {| text := Some odia_namaskar |})
      (transliterateToOdia None [])
  = ([], Rejected (new_Error KEY_MISSING))
  /\ run (fun _ _ => Fulfilled {| text := Some odia_namaskar |})
         (transliterateToOdia (Some []) (lit " "))
     = ([], Rejected (new_Error KEY_MISSING)).
Proof.
  split.
  - apply (C10_credential_check_comes_first None); reflexivity.
  - apply (C10_credential_check_comes_first (Some [])); reflexivity.
Defined.

(* ================================================================== *)
(** ** Properties of the history cache *)
(* ================================================================== *)

Section CacheFacts.

Variable toLowerCase : jsstring -> jsstring.

Lemma same_original_refl a : same_original toLowerCase a a = true.
Proof. apply eqb_refl. Qed.

Lemma same_original_key a b :
  same_original toLowerCase a b = true <-> toLowerCase a = toLowerCase b.
Proof. apply eqb_eq. Qed.

Lemma occurrences_none input h :
  (forall p, In p h -> same_original toLowerCase (original p) input = false) ->
  occurrences toLowerCase input h = 0.
Proof.
  unfold occurrences.
  induction h as [|p h IH]; intros H; simpl; [reflexivity|].
  rewrite (H p (or_introl eq_refl)).
  apply IH; intros q Hq; apply H; right; exact Hq.
Qed.

Lemma firstn_In_orig {A} n (l : list A) x : In x (firstn n l) -> In x l.
Proof.
  revert l; induction n as [|n IH]; intros [|y l]; simpl; try tauto.
  intros [E|H]; [left; exact E | right; apply IH; exact H].
Qed.

Lemma NoDup_firstn_orig {A} n (l : list A) : NoDup l -> NoDup (firstn n l).
Proof.
  intros H; rewrite <- (firstn_skipn n l) in H.
  apply NoDup_app_remove_r in H; exact H.
Qed.

Lemma filtered_differs input prev p :
  In p (filter (fun p => negb (same_original toLowerCase (original p) input)) prev) ->
  same_original toLowerCase (original p) input = false.
Proof.
  intros H; apply filter_In in H; destruct H as [_ H].
  apply negb_true_iff in H; exact H.
Qed.

Lemma distinct_filter f prev :
  distinct_originals toLowerCase prev ->
  distinct_originals toLowerCase (filter f prev).
Proof.
  unfold distinct_originals.
  induction prev as [|p prev IH]; simpl; intros H; [constructor|].
  inversion H as [|x l Hx Hl]; subst.
  destruct (f p); simpl; [constructor|]; auto.
  intros Hin; apply Hx.
  apply in_map_iff in Hin; destruct Hin as (q & Eq & Hq).
  apply in_map_iff; exists q; split; [exact Eq|].
  apply filter_In in Hq; tauto.
Qed.

(** The shape of the result of an upsert: the new entry, then at most nine
    of the older entries, none of which has its original. *)
Lemma upsert_shape now input result prev :
  upsert toLowerCase now input result prev
  = newItem now input result
    :: firstn 9
         (filter (fun p => negb (same_original toLowerCase (original p) input))
                 prev).
Proof. reflexivity. Qed.

Lemma upsert_distinct now input result prev :
  distinct_originals toLowerCase prev ->
  distinct_originals toLowerCase (upsert toLowerCase now input result prev).
Proof.
  intros H; rewrite upsert_shape.
  unfold distinct_originals, newItem; cbn [map]; constructor.
  - cbn [original]; intros Hin; apply in_map_iff in Hin; destruct Hin as (q & Eq & Hq).
    apply firstn_In_orig, filtered_differs in Hq.
    apply same_original_key in Eq; congruence.
  - rewrite <- firstn_map; apply NoDup_firstn_orig.
    apply (distinct_filter _ prev H).
Qed.

Lemma upsert_length now input result prev :
  List.length (upsert toLowerCase now input result prev) <= 10.
Proof. unfold upsert; apply firstn_le_length. Qed.

End CacheFacts.

(* ================================================================== *)
(** ** Properties of the input debouncer *)
(* ================================================================== *)

Section HookFacts.

Variable T : Type.
Variable T_eq_dec : forall a b : T, {a = b} + {a <> b}.
Variable delay : N.

Lemma last_cons {A} (a d : A) (l : list A) : last (a :: l) d = last l a.
Proof.
  revert a d; induction l as [|b l IH]; intros a d; [reflexivity|].
  change (last (a :: b :: l) d) with (last (b :: l) d).
  rewrite (IH b d), (IH b a); reflexivity.
Qed.

(** A render with a new value sets a timeout of its own, whatever timeout
    was pending, and leaves the settled value alone. *)
Lemma render_restarts now v (h : Debounce.hook T) :
  v <> fst (Debounce.deps h) ->
  Debounce.render T_eq_dec now v delay h
  = {| Debounce.debouncedValue := Debounce.debouncedValue h;
       Debounce.deps := (v, delay);
       Debounce.handler := Some ((now + delay)%N, v) |}.
Proof.
  intros Hv; unfold Debounce.render, Debounce.same_deps; cbn [fst snd].
  destruct (T_eq_dec v (fst (Debounce.deps h))); [contradiction|reflexivity].
Qed.

(** A render with the value and the delay of the render before does not
    touch the pending timeout. *)
Lemma render_same now v (h : Debounce.hook T) :
  Debounce.deps h = (v, delay) ->
  Debounce.render T_eq_dec now v delay h = h.
Proof.
  intros E; unfold Debounce.render, Debounce.same_deps; rewrite E; cbn [fst snd].
  destruct (T_eq_dec v v); [|contradiction].
  rewrite N.eqb_refl; reflexivity.
Qed.

Lemma advance_early now d v (h : Debounce.hook T) :
  Debounce.handler h = Some (d, v) -> (now < d)%N ->
  Debounce.advance now h = (h, []).
Proof.
  intros E L; unfold Debounce.advance; rewrite E.
  apply N.leb_gt in L; rewrite L; reflexivity.
Qed.

Lemma advance_due now d v (h : Debounce.hook T) :
  Debounce.handler h = Some (d, v) -> (d <= now)%N ->
  Debounce.advance now h
  = ({| Debounce.debouncedValue := v;
        Debounce.deps := Debounce.deps h;
        Debounce.handler := None |}, [(d, v)]).
Proof.
  intros E L; unfold Debounce.advance; rewrite E.
  apply N.leb_le in L; rewrite L; reflexivity.
Qed.

(** Through a burst that follows the update [(t0, v0)], no timeout runs,
    and the one left pending is that of the last update. *)
Lemma updates_burst (us : list (N * T)) :
  forall (h : Debounce.hook T) t0 v0,
    Debounce.handler h = Some ((t0 + delay)%N, v0) ->
    Debounce.deps h = (v0, delay) ->
    Debounce.burst delay t0 v0 us ->
    Debounce.updates T_eq_dec delay us h
    = ({| Debounce.debouncedValue := Debounce.debouncedValue h;
          Debounce.deps := (snd (last us (t0, v0)), delay);
          Debounce.handler :=
            Some ((fst (last us (t0, v0)) + delay)%N, snd (last us (t0, v0))) |},
       []).
Proof.
  induction us as [|[t v] us IH]; intros h t0 v0 Hh Hd B.
  - destruct h; simpl in *; subst; reflexivity.
  - destruct B as (_ & Lt & Nv & B).
    cbn [Debounce.updates].
    rewrite (advance_early t _ _ h Hh Lt).
    rewrite render_restarts by (rewrite Hd; exact Nv).
    erewrite IH; [| reflexivity | reflexivity | exact B].
    rewrite last_cons; reflexivity.
Qed.

End HookFacts.

(** C9: take a hook with no timeout due, and a sequence of updates of its
    value, the first at [t1], each less than [delay] after the one before
    and each with a value other than the one before (a render with the same
    value is no update: the effect does not run). Then no timeout runs
    during the sequence; after it one timeout is pending, that of the last
    update, set for [delay] after it, every earlier one having been
    cleared; as long as the clock has not reached that time the settled
    value is the one from before the sequence; and once it has, exactly one
    callback has run, at that time, and the settled value is the last value
    of the sequence. A render with a new value always replaces the pending
    timeout by one of the full delay. *)
Theorem C9_burst_settles_once_to_last_value :
  forall (T : Type) (T_eq_dec : forall a b : T, {a = b} + {a <> b})
         (delay : N) (h : Debounce.hook T) (t1 : N) (v1 : T)
         (us : list (N * T)),
    snd (Debounce.deps h) = delay ->
    v1 <> fst (Debounce.deps h) ->
    (forall d v, Debounce.handler h = Some (d, v) -> (t1 < d)%N) ->
    Debounce.burst delay t1 v1 us ->
    let t_last := fst (last us (t1, v1)) in
    let v_last := snd (last us (t1, v1)) in
    let pending :=
      {| Debounce.debouncedValue := Debounce.debouncedValue h;
         Debounce.deps := (v_last, delay);
         Debounce.handler := Some ((t_last + delay)%N, v_last) |} in
    Debounce.updates T_eq_dec delay ((t1, v1) :: us) h = (pending, [])
    /\ (forall t_end, (t_end < t_last + delay)%N ->
          Debounce.observe T_eq_dec delay ((t1, v1) :: us) t_end h
          = (pending, []))
    /\ (forall t_end, (t_last + delay <= t_end)%N ->
          Debounce.observe T_eq_dec delay ((t1, v1) :: us) t_end h
          = ({| Debounce.debouncedValue := v_last;
                Debounce.deps := (v_last, delay);
                Debounce.handler := None |},
             [((t_last + delay)%N, v_last)]))
    /\ (forall now v (g : Debounce.hook T),
          v <> fst (Debounce.deps g) ->
          Debounce.handler (Debounce.render T_eq_dec now v delay g)
          = Some ((now + delay)%N, v)).
Proof.
  intros T T_eq_dec delay h t1 v1 us Hdelay Hv Hpending B t_last v_last pending.
  assert (U : Debounce.updates T_eq_dec delay ((t1, v1) :: us) h = (pending, [])).
  { cbn [Debounce.updates].
    assert (A : Debounce.advance t1 h = (h, [])).
    { destruct (Debounce.handler h) as [[d v]|] eqn:E.
      - apply (advance_early T t1 d v h E), (Hpending d v eq_refl).
      - unfold Debounce.advance; rewrite E; reflexivity. }
    rewrite A, (render_restarts T T_eq_dec delay t1 v1 h Hv).
    erewrite updates_burst; [| reflexivity | reflexivity | exact B].
    reflexivity. }
  split; [exact U|].
  split; [|split].
  - intros t_end L; unfold Debounce.observe; rewrite U.
    rewrite (advance_early T t_end _ v_last pending eq_refl L); reflexivity.
  - intros t_end L; unfold Debounce.observe; rewrite U.
    rewrite (advance_due T t_end _ v_last pending eq_refl L); reflexivity.
  - intros now v g Hg.
    rewrite (render_restarts T T_eq_dec delay now v g Hg); reflexivity.
Qed.

Lemma C9_burst_settles_once_to_last_value_witness :
  Debounce.observe App.Object_is 800
    [(100, lit "n"); (300, lit "na"); (1000, lit "nam")]%N 1800
    (Debounce.mount 0 [] 800)
  = ({| Debounce.debouncedValue := lit "nam";
        Debounce.deps := (lit "nam", 800%N);
        Debounce.handler := None |},
     [(1800%N, lit "nam")]).
Proof.
  assert (B : Debounce.burst 800 100 (lit "n")
                [(300, lit "na"); (1000, lit "nam")]%N).
  { simpl; repeat split; try lia; discriminate. }
  assert (P : forall d v,
             Debounce.handler (Debounce.mount 0 ([] : jsstring) 800) = Some (d, v) ->
             (100 < d)%N).
  { intros d v E; injection E as <- _; reflexivity. }
  assert (V : lit "n" <> fst (Debounce.deps (Debounce.mount 0 ([] : jsstring) 800)))
    by discriminate.
  destruct (C9_burst_settles_once_to_last_value jsstring App.Object_is 800
              (Debounce.mount 0 [] 800) 100 (lit "n")
              [(300, lit "na"); (1000, lit "nam")]%N eq_refl V P B)
    as (_ & _ & H & _).
  apply (H 1800%N); simpl; lia.
Defined.

(* ================================================================== *)
(** ** Properties of the request orchestrator *)
(* ================================================================== *)

Import App.

Section AppFacts.

Variable toLowerCase : jsstring -> jsstring.
Variable API_KEY : option jsstring.

Lemma frame_refl s : frame s s.
Proof. repeat split. Qed.

Lemma frame_trans s1 s2 s3 : frame s1 s2 -> frame s2 s3 -> frame s1 s3.
Proof. unfold frame; intuition congruence. Qed.

Lemma settled_frame input out s :
  frame s (handleTransliterate_settled toLowerCase input out s).
Proof.
  unfold handleTransliterate_settled.
  destruct out as [result|err]; [|repeat split].
  destruct ((2 <? List.length input) && truthy result); repeat split.
Qed.

Lemma drive_frame input p s : frame s (drive toLowerCase input p s).
Proof.
  unfold drive; destruct (poll p) as [tr [out|k]].
  - apply (frame_trans s (perform tr s)); [repeat split|apply settled_frame].
  - repeat split.
Qed.

Lemma handleTransliterate_frame input s :
  frame s (handleTransliterate toLowerCase API_KEY input s).
Proof.
  unfold handleTransliterate.
  destruct (negb (truthy (trim input))); [repeat split|].
  eapply frame_trans; [|apply drive_frame]; repeat split.
Qed.

Lemma reply_frame r answer s : frame s (reply toLowerCase r answer s).
Proof.
  unfold reply; destruct (find _ (inflight s)) as [q|]; [|apply frame_refl].
  eapply frame_trans; [|apply drive_frame]; repeat split.
Qed.

Lemma autoEffect_frame s : frame s (autoEffect toLowerCase API_KEY s).
Proof.
  unfold autoEffect.
  destruct (autoMode s && truthy _); [apply handleTransliterate_frame|].
  destruct (negb (truthy _)); repeat split.
Qed.

Lemma same_effectDeps_eq a b : same_effectDeps a b = true <-> a = b.
Proof.
  destruct a as [a1 a2], b as [b1 b2]; unfold same_effectDeps; cbn [fst snd].
  rewrite andb_true_iff, eqb_eq, Bool.eqb_true_iff.
  split; [intros [-> ->]; reflexivity | intros E; injection E; auto].
Qed.

(** Once both effects have run for the current dependencies, a render
    runs neither. *)
Lemma render_settled s :
  Debounce.deps (debounced s) = (inputText s, 800%N) ->
  effectDeps s = (Debounce.debouncedValue (debounced s), autoMode s) ->
  render toLowerCase API_KEY s = s.
Proof.
  intros D E; unfold render.
  rewrite (render_same jsstring Object_is 800 (clock s) (inputText s) _ D).
  destruct s; cbn in *; subst.
  assert (Q : forall d, same_effectDeps d d = true)
    by (intros d; apply same_effectDeps_eq; reflexivity).
  rewrite Q; reflexivity.
Qed.

Local Abbreviation bounded s :=
  (Forall (fun q => rid q < nextRid s) (inflight s)).

Lemma settled_bounded input out s :
  bounded s -> bounded (handleTransliterate_settled toLowerCase input out s).
Proof.
  unfold handleTransliterate_settled.
  destruct out as [result|err]; [|exact (fun H => H)].
  destruct ((2 <? List.length input) && truthy result); exact (fun H => H).
Qed.

Lemma drive_bounded input p s :
  bounded s -> bounded (drive toLowerCase input p s).
Proof.
  intros H; unfold drive; destruct (poll p) as [tr [out|k]].
  - apply settled_bounded; exact H.
  - cbn; apply Forall_app; split.
    + eapply Forall_impl; [|exact H]; cbn; intros q Hq; lia.
    + constructor; [cbn; lia|constructor].
Qed.

Lemma handleTransliterate_bounded input s :
  bounded s -> bounded (handleTransliterate toLowerCase API_KEY input s).
Proof.
  intros H; unfold handleTransliterate.
  destruct (negb (truthy (trim input))); [exact H|].
  apply drive_bounded; exact H.
Qed.

Lemma reply_bounded r answer s :
  bounded s -> bounded (reply toLowerCase r answer s).
Proof.
  intros H; unfold reply; destruct (find _ (inflight s)) as [q|]; [|exact H].
  apply drive_bounded; cbn.
  apply Forall_forall; intros x Hx; apply filter_In in Hx.
  rewrite Forall_forall in H; apply H; tauto.
Qed.

Lemma autoEffect_bounded s :
  bounded s -> bounded (autoEffect toLowerCase API_KEY s).
Proof.
  intros H; unfold autoEffect.
  destruct (autoMode s && truthy _); [apply handleTransliterate_bounded; exact H|].
  destruct (negb (truthy _)); exact H.
Qed.

Lemma render_bounded s :
  bounded s -> bounded (render toLowerCase API_KEY s).
Proof.
  intros H; unfold render.
  destruct (same_effectDeps _ _); [exact H|].
  apply autoEffect_bounded; exact H.
Qed.

Lemma debounce_render_deps now v (h : Debounce.hook jsstring) :
  Debounce.deps (Debounce.render Object_is now v 800 h) = (v, 800%N).
Proof.
  unfold Debounce.render, Debounce.same_deps; cbn [fst snd].
  destruct (Debounce.deps h) as [v0 d0] eqn:E; cbn [fst snd].
  destruct (Object_is v v0) as [->|]; [|reflexivity].
  destruct (N.eqb_spec 800 d0) as [<-|]; [exact E|reflexivity].
Qed.

(** After a render both effects have run for the current dependencies. *)
Lemma render_establishes s :
  let s' := render toLowerCase API_KEY s in
  Debounce.deps (debounced s') = (inputText s', 800%N)
  /\ effectDeps s' = (Debounce.debouncedValue (debounced s'), autoMode s').
Proof.
  unfold render.
  set (s1 := with_debounced _ s).
  assert (D1 : Debounce.deps (debounced s1) = (inputText s1, 800%N))
    by apply debounce_render_deps.
  destruct (same_effectDeps _ (effectDeps s1)) eqn:E.
  - apply same_effectDeps_eq in E; split; [exact D1|symmetry; exact E].
  - set (s2 := with_effectDeps _ s1).
    destruct (autoEffect_frame s2) as (F1 & F2 & F3 & F4 & _).
    cbn zeta; rewrite F1, F2, F3, F4; split; [exact D1|reflexivity].
Qed.

Lemma render_settled_render s :
  bounded s -> settled_render (render toLowerCase API_KEY s).
Proof.
  intros H; destruct (render_establishes s) as [D E].
  split; [exact D|split; [exact E|apply render_bounded; exact H]].
Qed.

Lemma with_clock_settled_render t s :
  settled_render s -> settled_render (with_clock t s).
Proof. exact (fun H => H). Qed.

Lemma mount_settled_render t0 :
  settled_render (mount toLowerCase API_KEY t0).
Proof.
  unfold mount.
  set (s0 := {| inputText := [] |}).
  destruct (autoEffect_frame s0) as (F1 & F2 & F3 & F4 & _).
  split; [|split].
  - rewrite F3, F1; reflexivity.
  - rewrite F4, F3, F2; reflexivity.
  - apply autoEffect_bounded; constructor.
Qed.

(** Every event leaves the component rendered. *)
Lemma step_settled_render s e :
  settled_render s -> settled_render (step toLowerCase API_KEY s e).
Proof.
  intros H; pose proof H as (_ & _ & B).
  destruct e as [v| | | |i| |dt|r answer]; cbn [step].
  - apply render_settled_render; exact B.
  - apply render_settled_render; exact B.
  - destruct (autoMode s || _); [exact H|].
    apply render_settled_render, handleTransliterate_bounded; exact B.
  - apply render_settled_render; exact B.
  - destruct (nth_error (history s) i); [|exact H].
    apply render_settled_render; exact B.
  - apply render_settled_render; exact B.
  - destruct (Debounce.advance _ (debounced s)) as [h [|[d v] l]].
    + apply with_clock_settled_render; exact H.
    + apply with_clock_settled_render, render_settled_render; exact B.
  - apply render_settled_render, reply_bounded; exact B.
Qed.

Lemma reachable_settled_render s :
  reachable toLowerCase API_KEY s -> settled_render s.
Proof.
  induction 1 as [t0|s e _ IH];
    [apply mount_settled_render|apply step_settled_render; exact IH].
Qed.

(** A handler that stays within the frame needs no effect to run. *)
Lemma render_after_frame s s' :
  settled_render s -> frame s s' -> render toLowerCase API_KEY s' = s'.
Proof.
  intros (D & E & _) (F1 & F2 & F3 & F4 & _).
  apply render_settled; rewrite ?F1, ?F2, ?F3, ?F4; assumption.
Qed.

(** With a credential and an input that is not blank, the call sends its
    request and suspends. *)
Lemma handleTransliterate_dispatch input s :
  truthy (apiKey API_KEY) = true -> truthy (trim input) = true ->
  exists k,
    (forall r, k r = after_await r)
    /\ handleTransliterate toLowerCase API_KEY input s
       = suspend input k
           (perform [Requested (the_request input)]
              (called input (setError None (setIsLoading true s)))).
Proof.
  intros K W; unfold handleTransliterate; rewrite W; cbn [negb].
  apply trim_not_blank in W.
  destruct (transliterateToOdia_request API_KEY input K W) as (k & E & Hk).
  exists k; split; [exact Hk|].
  rewrite E; reflexivity.
Qed.

(** Without a credential the call fails before it reaches the service. *)
Lemma handleTransliterate_no_credential input s :
  truthy (apiKey API_KEY) = false -> truthy (trim input) = true ->
  handleTransliterate toLowerCase API_KEY input s
  = handleTransliterate_settled toLowerCase input
      (Rejected (new_Error KEY_MISSING))
      (perform [] (called input (setError None (setIsLoading true s)))).
Proof.
  intros K W; unfold handleTransliterate; rewrite W; cbn [negb].
  rewrite (transliterateToOdia_absent _ _ K); reflexivity.
Qed.

Lemma find_fresh (l l' : list request) q :
  Forall (fun x => rid x < rid q) l ->
  find (fun x => Nat.eqb (rid x) (rid q)) (l ++ q :: l') = Some q.
Proof.
  induction l as [|x l IH]; intros H; cbn [app find].
  - rewrite Nat.eqb_refl; reflexivity.
  - inversion H as [|y m Hx Hl]; subst.
    destruct (Nat.eqb_spec (rid x) (rid q)) as [E|_]; [lia|].
    apply IH; exact Hl.
Qed.

Lemma filter_older (l : list request) n m :
  Forall (fun x => rid x < n) l -> n <= m ->
  filter (fun x => negb (Nat.eqb (rid x) m)) l = l.
Proof.
  induction l as [|x l IH]; intros H L; cbn [filter]; [reflexivity|].
  inversion H as [|y k Hx Hl]; subst.
  destruct (Nat.eqb_spec (rid x) m) as [E|_]; [lia|].
  cbn [negb]; f_equal; apply IH; assumption.
Qed.

(** The answer of the service reaches the suspended call. *)
Lemma reply_found r answer s q :
  find (fun x => Nat.eqb (rid x) r) (inflight s) = Some q ->
  rcont q answer = after_await answer ->
  reply toLowerCase r answer s
  = drive toLowerCase (rtext q) (after_await answer) (resumed r s).
Proof. intros F E; unfold reply; rewrite F, E; reflexivity. Qed.

Lemma settled_fulfilled input result s :
  let s' := handleTransliterate_settled toLowerCase input (Fulfilled result) s in
  outputText s' = result
  /\ isLoading s' = false
  /\ inflight s' = inflight s
  /\ nextRid s' = nextRid s.
Proof.
  unfold handleTransliterate_settled.
  destruct ((2 <? List.length input) && truthy result); repeat split.
Qed.

(** A fulfilled answer to a call in flight becomes the output, whatever
    was sent or shown since the call was made. *)
Lemma reply_fulfilled s0 s r q resp :
  settled_render s0 -> frame s0 s ->
  find (fun x => Nat.eqb (rid x) r) (inflight s) = Some q ->
  (forall a, rcont q a = after_await a) ->
  let s' := step toLowerCase API_KEY s (Reply r (Fulfilled resp)) in
  outputText s' = or_else (option_map trim (text resp)) []
  /\ isLoading s' = false
  /\ inflight s' = filter (fun x => negb (Nat.eqb (rid x) r)) (inflight s)
  /\ nextRid s' = nextRid s
  /\ frame s0 s'.
Proof.
  intros R F Q Hk; cbn [step].
  rewrite (reply_found r _ s q Q (Hk _)).
  assert (F' : frame s0 (drive toLowerCase (rtext q)
                           (after_await (Fulfilled resp)) (resumed r s))).
  { eapply frame_trans; [exact F|].
    eapply frame_trans; [|apply drive_frame]; repeat split. }
  rewrite (render_after_frame s0 _ R F').
  split; [|split; [|split; [|split; [|exact F']]]];
    unfold drive; cbn [after_await poll];
    apply (settled_fulfilled (rtext q) _ (perform [] (resumed r s))).
Qed.

Lemma truthy_trim d : truthy (trim d) = true -> truthy d = true.
Proof. destruct d; [discriminate|reflexivity]. Qed.

Lemma calls_drive input p s :
  calls (drive toLowerCase input p s) = calls s.
Proof.
  unfold drive; destruct (poll p) as [tr [[result|err]|k]]; try reflexivity.
  unfold handleTransliterate_settled.
  destruct ((2 <? List.length input) && truthy result); reflexivity.
Qed.

(** A call of [handleTransliterate] reaches the client exactly when its
    input is not blank. *)
Lemma calls_handleTransliterate input s :
  calls (handleTransliterate toLowerCase API_KEY input s)
  = if truthy (trim input) then calls s ++ [input] else calls s.
Proof.
  unfold handleTransliterate.
  destruct (truthy (trim input)); cbn [negb]; [|reflexivity].
  rewrite calls_drive; reflexivity.
Qed.

Lemma calls_reply r answer s :
  calls (reply toLowerCase r answer s) = calls s.
Proof.
  unfold reply; destruct (find _ (inflight s)); [|reflexivity].
  rewrite calls_drive; reflexivity.
Qed.

Lemma calls_autoEffect s :
  calls (autoEffect toLowerCase API_KEY s)
  = if autoMode s && truthy (trim (Debounce.debouncedValue (debounced s)))
    then calls s ++ [Debounce.debouncedValue (debounced s)]
    else calls s.
Proof.
  unfold autoEffect.
  set (d := Debounce.debouncedValue (debounced s)).
  destruct (autoMode s); cbn [andb].
  - destruct (truthy d) eqn:Td.
    + apply calls_handleTransliterate.
    + destruct d; [reflexivity|discriminate Td].
  - destruct (negb (truthy d)); reflexivity.
Qed.

Lemma debounce_render_value now v (h : Debounce.hook jsstring) :
  Debounce.debouncedValue (Debounce.render Object_is now v 800 h)
  = Debounce.debouncedValue h.
Proof.
  unfold Debounce.render; destruct (Debounce.same_deps _ _ _); reflexivity.
Qed.

(** What a render does: [useDebounce] keeps its settled value; the
    auto-transliteration effect runs when the debounced input or the mode
    is not what it last ran with, and then calls the client when the mode
    is automatic and the debounced input is not blank. *)
Lemma render_spec s :
  let d := Debounce.debouncedValue (debounced s) in
  let s' := render toLowerCase API_KEY s in
  Debounce.debouncedValue (debounced s') = d
  /\ autoMode s' = autoMode s
  /\ inputText s' = inputText s
  /\ calls s'
     = if negb (same_effectDeps (d, autoMode s) (effectDeps s))
          && (autoMode s && truthy (trim d))
       then calls s ++ [d] else calls s.
Proof.
  cbv zeta; unfold render.
  set (s1 := with_debounced _ s).
  assert (D1 : Debounce.debouncedValue (debounced s1)
               = Debounce.debouncedValue (debounced s))
    by apply debounce_render_value.
  rewrite D1.
  change (autoMode s1) with (autoMode s).
  change (effectDeps s1) with (effectDeps s).
  destruct (same_effectDeps _ (effectDeps s)); cbn [negb andb].
  - repeat split; exact D1.
  - set (s2 := with_effectDeps _ s1).
    destruct (autoEffect_frame s2) as (F1 & F2 & F3 & _).
    rewrite F1, F2, F3, calls_autoEffect.
    repeat split; try exact D1.
    change (autoMode s2) with (autoMode s).
    change (debounced s2) with (debounced s1); rewrite D1; reflexivity.
Qed.

(** When the client is called. Apart from the manual trigger, an event
    calls the client exactly when it changes the debounced input or the
    mode and leaves the mode automatic and the debounced input not blank;
    the call then carries the debounced input. *)
Lemma step_calls s e :
  settled_render s -> e <> ClickTransliterate ->
  let d := Debounce.debouncedValue (debounced s) in
  let s' := step toLowerCase API_KEY s e in
  let d' := Debounce.debouncedValue (debounced s') in
  calls s'
  = if negb (same_effectDeps (d', autoMode s') (d, autoMode s))
       && (autoMode s' && truthy (trim d'))
    then calls s ++ [d'] else calls s.
Proof.
  intros (_ & E & _) NC; cbv zeta.
  assert (Q : forall x, same_effectDeps x x = true)
    by (intros x; apply same_effectDeps_eq; reflexivity).
  destruct e as [v| | | |i| |dt|r answer]; cbn [step];
    try (match goal with
         | |- context [render _ _ ?X] =>
             destruct (render_spec X) as (V & M & _ & C);
             rewrite V, M, C; cbn [effectDeps calls autoMode debounced
               setInputText setOutputText setError setAutoMode setHistory];
             rewrite E; reflexivity
         end).
  - congruence.
  - destruct (nth_error (history s) i) as [item|].
    + match goal with
      | |- context [render _ _ ?X] =>
          destruct (render_spec X) as (V & M & _ & C);
          rewrite V, M, C; cbn [effectDeps calls autoMode debounced
            setInputText setOutputText];
          rewrite E; reflexivity
      end.
    + rewrite Q; reflexivity.
  - destruct (Debounce.advance _ (debounced s)) as [h [|[d0 v0] l]].
    + cbn [with_clock debounced autoMode calls]; rewrite Q; reflexivity.
    + match goal with
      | |- context [render _ _ ?X] =>
          destruct (render_spec X) as (V & M & _ & C)
      end.
      cbn [with_clock debounced autoMode calls effectDeps with_debounced] in *.
      rewrite V, M, C, E; reflexivity.
  - destruct (reply_frame r answer s) as (_ & F2 & F3 & F4 & _).
    match goal with
    | |- context [render _ _ ?X] =>
        destruct (render_spec X) as (V & M & _ & C)
    end.
    rewrite V, M, C, F2, F3, F4, E, calls_reply; reflexivity.
Qed.


(** Picking an entry of the history: the two setters, and the effect of
    [useDebounce], which sees the new input. *)
Lemma select_step s i item :
  settled_render s -> nth_error (history s) i = Some item ->
  step toLowerCase API_KEY s (Select i)
  = with_debounced
      (Debounce.render Object_is (clock s) (original item) 800 (debounced s))
      (setOutputText (transliterated item) (setInputText (original item) s)).
Proof.
  intros (_ & E & _) H; cbn [step]; rewrite H; unfold render.
  cbn [clock inputText debounced autoMode effectDeps with_debounced
         setOutputText setInputText].
  rewrite debounce_render_value, E.
  assert (Q : forall x, same_effectDeps x x = true)
    by (intros x; apply same_effectDeps_eq; reflexivity).
  rewrite Q; reflexivity.
Qed.

(** In manual mode a render reaches neither the client nor the service. *)
Lemma render_manual s :
  autoMode s = false ->
  calls (render toLowerCase API_KEY s) = calls s
  /\ effects (render toLowerCase API_KEY s) = effects s.
Proof.
  intros A; unfold render.
  destruct (same_effectDeps _ _); [split; reflexivity|].
  unfold autoEffect.
  cbn [autoMode debounced with_effectDeps with_debounced].
  rewrite A; cbn [andb].
  destruct (negb (truthy _)); split; reflexivity.
Qed.

Lemma elapse_manual s dt :
  autoMode s = false ->
  calls (step toLowerCase API_KEY s (Elapse dt)) = calls s
  /\ effects (step toLowerCase API_KEY s (Elapse dt)) = effects s.
Proof.
  intros A; cbn [step].
  destruct (Debounce.advance _ (debounced s)) as [h [|[d v] l]];
    [split; reflexivity|].
  cbn [calls effects with_clock].
  apply (render_manual (with_debounced h (with_clock d s))); exact A.
Qed.

(** In automatic mode, the window after a change of the input elapses:
    the debounced input follows, and the effect calls
    [handleTransliterate] with it. *)
Lemma elapse_after_change s v :
  Debounce.deps (debounced s) = (inputText s, 800%N) ->
  Debounce.handler (debounced s) = Some ((clock s + 800)%N, inputText s) ->
  effectDeps s = (v, true) ->
  autoMode s = true ->
  inputText s <> v ->
  truthy (inputText s) = true ->
  exists s0,
    step toLowerCase API_KEY s (Elapse 800)
    = with_clock (clock s + 800)
        (handleTransliterate toLowerCase API_KEY (inputText s) s0)
    /\ calls s0 = calls s /\ effects s0 = effects s.
Proof.
  intros D H E A NV Ti; cbn [step].
  rewrite (advance_due jsstring _ _ _ (debounced s) H (N.le_refl _)).
  unfold render.
  cbn [clock inputText debounced autoMode effectDeps with_debounced with_clock].
  set (h := {| Debounce.debouncedValue := inputText s |}).
  rewrite (render_same jsstring Object_is 800 _ (inputText s) h D).
  cbn [Debounce.debouncedValue h]; rewrite E, A.
  assert (N : same_effectDeps (inputText s, true) (v, true) = false).
  { destruct (same_effectDeps _ _) eqn:Q; [|reflexivity].
    apply same_effectDeps_eq in Q; congruence. }
  rewrite N; unfold autoEffect.
  cbn [autoMode debounced with_effectDeps with_debounced with_clock
         Debounce.debouncedValue].
  change (Debounce.debouncedValue h) with (inputText s).
  rewrite A, Ti; cbn [andb].
  eexists; split; [reflexivity|split; reflexivity].
Qed.

End AppFacts.

(** The history of the component changes by upserts and clears only, so
    what they preserve holds of every history the component reaches. *)
Section HistoryOfComponent.

Variable toLowerCase : jsstring -> jsstring.
Variable API_KEY : option jsstring.
Variable P : list HistoryItem -> Prop.
Hypothesis P_clear : P [].
Hypothesis P_upsert :
  forall now input result h, P h -> P (upsert toLowerCase now input result h).

Lemma settled_history input out s :
  P (history s) -> P (history (handleTransliterate_settled toLowerCase input out s)).
Proof.
  intros H; unfold handleTransliterate_settled.
  destruct out as [result|err]; [|exact H].
  destruct ((2 <? List.length input) && truthy result); [|exact H].
  apply P_upsert; exact H.
Qed.

Lemma drive_history input p s :
  P (history s) -> P (history (drive toLowerCase input p s)).
Proof.
  intros H; unfold drive; destruct (poll p) as [tr [out|k]]; [|exact H].
  apply settled_history; exact H.
Qed.

Lemma handleTransliterate_history input s :
  P (history s) -> P (history (handleTransliterate toLowerCase API_KEY input s)).
Proof.
  intros H; unfold handleTransliterate.
  destruct (negb (truthy (trim input))); [exact H|].
  apply drive_history; exact H.
Qed.

Lemma autoEffect_history s :
  P (history s) -> P (history (autoEffect toLowerCase API_KEY s)).
Proof.
  intros H; unfold autoEffect.
  destruct (autoMode s && truthy _); [apply handleTransliterate_history; exact H|].
  destruct (negb (truthy _)); exact H.
Qed.

Lemma render_history s :
  P (history s) -> P (history (render toLowerCase API_KEY s)).
Proof.
  intros H; unfold render.
  destruct (same_effectDeps _ _); [exact H|].
  apply autoEffect_history; exact H.
Qed.

Lemma step_history s e :
  P (history s) -> P (history (step toLowerCase API_KEY s e)).
Proof.
  intros H; destruct e as [v| | | |i| |dt|r answer]; cbn [step].
  - apply render_history; exact H.
  - apply render_history; exact H.
  - destruct (autoMode s || _); [exact H|].
    apply render_history, handleTransliterate_history; exact H.
  - apply render_history; exact H.
  - destruct (nth_error (history s) i); [|exact H].
    apply render_history; exact H.
  - apply render_history; exact P_clear.
  - destruct (Debounce.advance _ (debounced s)) as [h [|[d v] l]]; [exact H|].
    cbn [history with_clock]; apply render_history; exact H.
  - apply render_history; unfold reply.
    destruct (find _ (inflight s)); [|exact H].
    apply drive_history; exact H.
Qed.

Lemma reachable_history s :
  reachable toLowerCase API_KEY s -> P (history s).
Proof.
  induction 1 as [t0|s e _ IH]; [|apply step_history; exact IH].
  unfold mount; apply autoEffect_history; exact P_clear.
Qed.

End HistoryOfComponent.

(** C3: whatever the history and whatever the item, after the upsert the
    history holds exactly one entry whose original is the item's but for
    case, and it is the new item, in first position; when no two entries
    of a history share an original but for case, the same holds after an
    upsert and after a clear; and so no two entries share an original but
    for case in any history the component reaches. *)
Theorem C3_upsert_keeps_one_entry_first :
  forall (toLowerCase : jsstring -> jsstring) (now : N)
         (input result : jsstring) (prev : list HistoryItem),
    occurrences toLowerCase input (upsert toLowerCase now input result prev) = 1
    /\ hd_error (upsert toLowerCase now input result prev)
       = Some (newItem now input result)
    /\ (distinct_originals toLowerCase prev ->
        distinct_originals toLowerCase (upsert toLowerCase now input result prev)
        /\ distinct_originals toLowerCase (clear prev))
    /\ (forall (API_KEY : option jsstring) (s : state),
          reachable toLowerCase API_KEY s ->
          distinct_originals toLowerCase (history s)).
Proof.
  intros toLowerCase now input result prev.
  split; [|split; [|split]].
  - rewrite upsert_shape; unfold occurrences, newItem; cbn [filter original].
    rewrite same_original_refl; cbn [List.length].
    f_equal; apply occurrences_none.
    intros p Hp; apply firstn_In_orig in Hp.
    apply (filtered_differs toLowerCase input prev p Hp).
  - reflexivity.
  - intros D; split; [apply upsert_distinct; exact D|constructor].
  - intros API_KEY s.
    apply (reachable_history toLowerCase API_KEY (distinct_originals toLowerCase)).
    + constructor.
    + intros t i r h; apply upsert_distinct.
Qed.

Lemma C3_upsert_keeps_one_entry_first_witness :
  occurrences ascii_toLowerCase (lit "namaSKAR")
    (upsert ascii_toLowerCase 5 (lit "namaSKAR") odia_namaskar
       [newItem 2 (lit "Namaskar") odia_namaskar;
        newItem 1 (lit "mu bhala achi") odia_mu_bhala_achi]) = 1
  /\ distinct_originals ascii_toLowerCase
       (upsert ascii_toLowerCase 5 (lit "namaSKAR") odia_namaskar
          [newItem 2 (lit "Namaskar") odia_namaskar;
           newItem 1 (lit "mu bhala achi") odia_mu_bhala_achi]).
Proof.
  pose proof (C3_upsert_keeps_one_entry_first ascii_toLowerCase 5
                (lit "namaSKAR") odia_namaskar
                [newItem 2 (lit "Namaskar") odia_namaskar;
                 newItem 1 (lit "mu bhala achi") odia_mu_bhala_achi])
    as (H1 & _ & H3 & _).
  split; [exact H1|].
  apply H3.
  repeat constructor; simpl; intuition discriminate.
Defined.

(** C4: when the history holds ten entries, no two with the same original
    but for case, and the original of the new item is none of theirs but for
    case, the upsert yields the new item followed by the first nine of the
    ten: ten entries, the one that was last is gone; no upsert and no
    clear ever yields more than ten entries, and no history the component
    reaches has more than ten. *)
Theorem C4_eleventh_item_evicts_oldest :
  forall (toLowerCase : jsstring -> jsstring) (now : N)
         (input result : jsstring) (prev : list HistoryItem),
    List.length prev = 10 ->
    distinct_originals toLowerCase prev ->
    (forall p, In p prev ->
               same_original toLowerCase (original p) input = false) ->
    upsert toLowerCase now input result prev
    = newItem now input result :: removelast prev
    /\ List.length (upsert toLowerCase now input result prev) = 10
    /\ ~ In (last prev (newItem now input result))
            (upsert toLowerCase now input result prev)
    /\ (forall any : list HistoryItem,
          List.length (upsert toLowerCase now input result any) <= 10
          /\ List.length (clear any) <= 10)
    /\ (forall (API_KEY : option jsstring) (s : state),
          reachable toLowerCase API_KEY s -> List.length (history s) <= 10).
Proof.
  intros toLowerCase now input result prev L D F.
  assert (E : upsert toLowerCase now input result prev
              = newItem now input result :: removelast prev).
  { rewrite upsert_shape; f_equal.
    rewrite removelast_firstn_len, L; f_equal.
    clear L D; induction prev as [|p prev IH]; [reflexivity|].
    cbn [filter]; rewrite (F p (or_introl eq_refl)); cbn [negb].
    f_equal; apply IH; intros q Hq; apply F; right; exact Hq. }
  assert (NE : prev <> []) by (intros ->; discriminate L).
  pose proof (app_removelast_last (newItem now input result) NE) as Split.
  set (oldest := last prev (newItem now input result)) in *.
  repeat split.
  - exact E.
  - rewrite E; cbn [List.length].
    rewrite removelast_firstn_len, L, length_firstn, L; reflexivity.
  - rewrite E; intros [Hnew | Hin].
    + assert (Ho : In oldest prev)
        by (rewrite Split; apply in_or_app; right; left; reflexivity).
      apply F in Ho; rewrite <- Hnew in Ho.
      cbn [newItem original] in Ho.
      rewrite same_original_refl in Ho; discriminate Ho.
    + unfold distinct_originals in D; rewrite Split, map_app in D.
      apply NoDup_remove_2 in D; apply D.
      rewrite app_nil_r.
      apply (in_map (fun p => toLowerCase (original p))) in Hin; exact Hin.
  - apply upsert_length.
  - apply Nat.le_0_l.
  - intros API_KEY s.
    apply (reachable_history toLowerCase API_KEY (fun h => List.length h <= 10)).
    + apply Nat.le_0_l.
    + intros t i r h _; apply upsert_length.
Qed.

Lemma C4_eleventh_item_evicts_oldest_witness :
  upsert ascii_toLowerCase 11 (lit "Word11") odia_namaskar Sample.ten_entries
  = newItem 11 (lit "Word11") odia_namaskar :: removelast Sample.ten_entries
  /\ List.length
       (upsert ascii_toLowerCase 11 (lit "Word11") odia_namaskar
          Sample.ten_entries) = 10
  /\ ~ In (newItem 1 (lit "word1") odia_namaskar)
          (upsert ascii_toLowerCase 11 (lit "Word11") odia_namaskar
             Sample.ten_entries).
Proof.
  assert (D : distinct_originals ascii_toLowerCase Sample.ten_entries).
  { repeat constructor; simpl; intuition discriminate. }
  assert (F : forall p, In p Sample.ten_entries ->
                same_original ascii_toLowerCase (original p) (lit "Word11") = false).
  { intros p Hp; simpl in Hp.
    repeat (destruct Hp as [<- | Hp]; [reflexivity|]); destruct Hp. }
  destruct (C4_eleventh_item_evicts_oldest ascii_toLowerCase 11
              (lit "Word11") odia_namaskar Sample.ten_entries
              eq_refl D F) as (H1 & H2 & H3 & _ & _).
  split; [exact H1 | split; [exact H2 | exact H3]].
Defined.


(** C6: a call of [handleTransliterate] with an input that is not blank
    leaves the output as it was when it sends its request; when the request
    then fails, it leaves the output as it finds it, sets the error message
    to the message of the failure, or to "Something went wrong." when the
    failure has none, and ends the loading. With a credential the failure is
    the client's generic one, and the output after it is the output from
    before the call. *)
Theorem C6_failure_leaves_output_unchanged :
  forall (toLowerCase : jsstring -> jsstring) (API_KEY : option jsstring)
         (s : state) (input : jsstring) (cause : JsError),
    settled_render s ->
    truthy (trim input) = true ->
    let s1 := handleTransliterate toLowerCase API_KEY input s in
    outputText s1 = outputText s
    /\ (forall (err : JsError) (s' : state),
          let s2 := handleTransliterate_settled toLowerCase input (Rejected err) s' in
          outputText s2 = outputText s'
          /\ error s2 = Some (or_else (message err) (lit "Something went wrong."))
          /\ isLoading s2 = false)
    /\ (truthy (apiKey API_KEY) = true ->
        isLoading s1 = true
        /\ error s1 = None
        /\ let s2 := step toLowerCase API_KEY s1
                       (Reply (nextRid s) (Rejected cause)) in
           outputText s2 = outputText s
           /\ error s2 = Some FAILED
           /\ isLoading s2 = false).
Proof.
  intros toLowerCase API_KEY s input cause R W s1.
  split; [|split].
  - subst s1; destruct (truthy (apiKey API_KEY)) eqn:K.
    + destruct (handleTransliterate_dispatch toLowerCase API_KEY input s K W)
        as (k & _ & E).
      rewrite E; reflexivity.
    + rewrite (handleTransliterate_no_credential toLowerCase API_KEY input s K W).
      reflexivity.
  - intros err s'; repeat split.
  - intros K.
    destruct (handleTransliterate_dispatch toLowerCase API_KEY input s K W)
      as (k & Hk & E).
    assert (F : frame s s1) by apply handleTransliterate_frame.
    subst s1; rewrite E in *.
    split; [reflexivity|split; [reflexivity|]].
    cbn [step].
    set (s1 := suspend _ _ _) in *.
    set (q := {| rid := nextRid s; rtext := input; rcont := k |}).
    assert (Q : find (fun x => Nat.eqb (rid x) (nextRid s)) (inflight s1) = Some q).
    { apply (find_fresh (inflight s) [] q); apply R. }
    rewrite (reply_found toLowerCase _ _ s1 q Q (Hk _)).
    rewrite (render_after_frame toLowerCase API_KEY s).
    + repeat split.
    + exact R.
    + eapply frame_trans; [exact F|].
      eapply frame_trans; [|apply drive_frame]; repeat split.
Qed.

Lemma C6_failure_leaves_output_unchanged_witness :
  outputText (Sample.run_events Sample.namaskar_done) = odia_namaskar
  /\ outputText
       (handleTransliterate ascii_toLowerCase Sample.secret (lit "mu bhala")
          (Sample.run_events Sample.namaskar_done))
     = outputText (Sample.run_events Sample.namaskar_done)
  /\ outputText
       (step ascii_toLowerCase Sample.secret
          (handleTransliterate ascii_toLowerCase Sample.secret (lit "mu bhala")
             (Sample.run_events Sample.namaskar_done))
          (Reply 1 (Rejected {| message := Some (lit "429 quota") |})))
     = outputText (Sample.run_events Sample.namaskar_done)
  /\ error
       (step ascii_toLowerCase Sample.secret
          (handleTransliterate ascii_toLowerCase Sample.secret (lit "mu bhala")
             (Sample.run_events Sample.namaskar_done))
          (Reply 1 (Rejected {| message := Some (lit "429 quota") |})))
     = Some FAILED
  /\ isLoading
       (step ascii_toLowerCase Sample.secret
          (handleTransliterate ascii_toLowerCase Sample.secret (lit "mu bhala")
             (Sample.run_events Sample.namaskar_done))
          (Reply 1 (Rejected {| message := Some (lit "429 quota") |})))
     = false.
Proof.
  assert (R : settled_render (Sample.run_events Sample.namaskar_done)).
  { split; [vm_compute; reflexivity|].
    split; [vm_compute; reflexivity|vm_compute; constructor]. }
  destruct (C6_failure_leaves_output_unchanged ascii_toLowerCase Sample.secret
              (Sample.run_events Sample.namaskar_done) (lit "mu bhala")
              {| message := Some (lit "429 quota") |} R eq_refl)
    as (H1 & _ & H3).
  destruct (H3 eq_refl) as (_ & _ & H4 & H5 & H6).
  split; [vm_compute; reflexivity|].
  split; [exact H1|].
  split; [exact H4|split; [exact H5|exact H6]].
Defined.

(** C1, as the claim words it, fails. Request 0 carries "ka" and request 1,
    sent while request 0 is in flight, carries "kab"; the service answers
    request 1, then request 0. The output then is the answer to request 0,
    next to the input "kab": the late answer has replaced the other. *)
Lemma C1_late_answer_overwrites :
  map rid (inflight (Sample.run_events Sample.two_in_flight)) = [0; 1]
  /\ map rtext (inflight (Sample.run_events Sample.two_in_flight))
     = [lit "ka"; lit "kab"]
  /\ inputText (Sample.run_events Sample.race) = lit "kab"
  /\ inflight (Sample.run_events Sample.race) = []
  /\ outputText (Sample.run_events Sample.race) = Sample.odia_ka
  /\ outputText (Sample.run_events Sample.race) <> Sample.odia_kaba.
Proof.
  repeat split; try reflexivity.
  vm_compute; discriminate.
Qed.

(** C1 (amended): the component applies every answer when it arrives, so
    the answer that arrives last is the one shown. Let request A be sent,
    then request B while A is in flight, both with a credential and an input
    that is not blank; let the service answer B, then A. After the answer to
    B the output is the result of B; after the answer to A the output is the
    result of A. *)
Theorem C1_last_answer_wins :
  forall (toLowerCase : jsstring -> jsstring) (API_KEY : option jsstring)
         (s : state) (inputA inputB : jsstring)
         (respA respB : GenerateContentResponse),
    settled_render s ->
    truthy (apiKey API_KEY) = true ->
    truthy (trim inputA) = true ->
    truthy (trim inputB) = true ->
    let A := nextRid s in
    let B := S (nextRid s) in
    let s1 := handleTransliterate toLowerCase API_KEY inputA s in
    let s2 := handleTransliterate toLowerCase API_KEY inputB s1 in
    let s3 := step toLowerCase API_KEY s2 (Reply B (Fulfilled respB)) in
    let s4 := step toLowerCase API_KEY s3 (Reply A (Fulfilled respA)) in
    map rid (inflight s2) = map rid (inflight s) ++ [A; B]
    /\ outputText s3 = or_else (option_map trim (text respB)) []
    /\ outputText s4 = or_else (option_map trim (text respA)) []
    /\ map rid (inflight s4) = map rid (inflight s).
Proof.
  intros toLowerCase API_KEY s inputA inputB respA respB R K WA WB A B s1 s2 s3 s4.
  pose proof R as (_ & _ & Bd).
  destruct (handleTransliterate_dispatch toLowerCase API_KEY inputA s K WA)
    as (kA & HkA & EA).
  destruct (handleTransliterate_dispatch toLowerCase API_KEY inputB s1 K WB)
    as (kB & HkB & EB).
  assert (F1 : frame s s1) by apply handleTransliterate_frame.
  assert (F2 : frame s s2).
  { eapply frame_trans; [exact F1|apply handleTransliterate_frame]. }
  set (qA := {| rid := A; rtext := inputA; rcont := kA |}).
  set (qB := {| rid := B; rtext := inputB; rcont := kB |}).
  assert (I1 : inflight s1 = inflight s ++ [qA] /\ nextRid s1 = B).
  { subst s1; rewrite EA; split; reflexivity. }
  destruct I1 as [I1 N1].
  assert (I2 : inflight s2 = (inflight s ++ [qA]) ++ [qB]).
  { subst s2; rewrite EB; cbn [inflight suspend perform called setError
                                 setIsLoading nextRid].
    rewrite I1, N1; reflexivity. }
  assert (Old : Forall (fun x => rid x < B) (inflight s ++ [qA])).
  { apply Forall_app; split.
    - eapply Forall_impl; [|exact Bd]; cbn; intros x Hx; subst B; lia.
    - constructor; [cbn; subst A B; lia|constructor]. }
  assert (Q3 : find (fun x => Nat.eqb (rid x) B) (inflight s2) = Some qB).
  { rewrite I2; apply (find_fresh (inflight s ++ [qA]) [] qB); exact Old. }
  destruct (reply_fulfilled toLowerCase API_KEY s s2 B qB respB R F2 Q3 HkB)
    as (O3 & _ & I3 & _ & F3).
  fold s3 in O3, I3, F3.
  assert (I3' : inflight s3 = inflight s ++ [qA]).
  { rewrite I3, I2, filter_app, (filter_older _ B B Old (le_n _)).
    cbn [filter rid qB]; rewrite Nat.eqb_refl; apply app_nil_r. }
  assert (Q4 : find (fun x => Nat.eqb (rid x) A) (inflight s3) = Some qA).
  { rewrite I3'; apply (find_fresh (inflight s) [] qA); exact Bd. }
  destruct (reply_fulfilled toLowerCase API_KEY s s3 A qA respA R F3 Q4 HkA)
    as (O4 & _ & I4 & _ & _).
  fold s4 in O4, I4.
  split; [rewrite I2, !map_app, <- app_assoc; reflexivity|].
  split; [exact O3|].
  split; [exact O4|].
  rewrite I4, I3', filter_app, (filter_older _ A A Bd (le_n _)).
  cbn [filter rid qA]; rewrite Nat.eqb_refl, app_nil_r; reflexivity.
Qed.

Lemma C1_last_answer_wins_witness :
  outputText
    (step ascii_toLowerCase Sample.secret
       (handleTransliterate ascii_toLowerCase Sample.secret (lit "kab")
          (handleTransliterate ascii_toLowerCase Sample.secret (lit "ka")
             Sample.fresh))
       (Reply 1 (Fulfilled {| text := Some Sample.odia_kaba |})))
  = Sample.odia_kaba
  /\ outputText
       (step ascii_toLowerCase Sample.secret
          (step ascii_toLowerCase Sample.secret
             (handleTransliterate ascii_toLowerCase Sample.secret (lit "kab")
                (handleTransliterate ascii_toLowerCase Sample.secret (lit "ka")
                   Sample.fresh))
             (Reply 1 (Fulfilled {| text := Some Sample.odia_kaba |})))
          (Reply 0 (Fulfilled {| text := Some Sample.odia_ka |})))
     = Sample.odia_ka.
Proof.
  assert (R : settled_render Sample.fresh).
  { split; [vm_compute; reflexivity|].
    split; [vm_compute; reflexivity|vm_compute; constructor]. }
  destruct (C1_last_answer_wins ascii_toLowerCase Sample.secret Sample.fresh
              (lit "ka") (lit "kab")
              {| text := Some Sample.odia_ka |} {| text := Some Sample.odia_kaba |}
              R eq_refl eq_refl eq_refl)
    as (_ & H3 & H4 & _).
  split; [exact H3|exact H4].
Defined.




(** C8, as the claim words it, fails. "namaskar" has been transliterated
    with one request, the text cleared, and the component is in automatic
    mode. The user picks the entry in the history: input and output show
    the entry, and nothing is sent at that moment. 800 ms later the
    debounced input follows the input, the effect runs, and a second request
    for "namaskar" goes out to the service. *)
Lemma C8_selection_leads_to_request :
  autoMode (Sample.run_events Sample.cleared) = true
  /\ map original (history (Sample.run_events Sample.cleared)) = [lit "namaskar"]
  /\ network (Sample.run_events Sample.cleared)
     = [Requested (the_request (lit "namaskar"))]
  /\ inputText (Sample.run_events (Sample.cleared ++ [Select 0])) = lit "namaskar"
  /\ outputText (Sample.run_events (Sample.cleared ++ [Select 0])) = odia_namaskar
  /\ network (Sample.run_events (Sample.cleared ++ [Select 0]))
     = [Requested (the_request (lit "namaskar"))]
  /\ network (Sample.run_events (Sample.cleared ++ [Select 0; Elapse 800]))
     = [Requested (the_request (lit "namaskar"));
        Requested (the_request (lit "namaskar"))]
  /\ isLoading (Sample.run_events (Sample.cleared ++ [Select 0; Elapse 800])) = true
  /\ network (Sample.run_events (Sample.cleared ++ [Select 0; Elapse 800]))
     <> network (Sample.run_events Sample.cleared).
Proof.
  repeat split; try reflexivity.
  vm_compute; discriminate.
Qed.

(** C8 (amended): picking an entry of the history shows its original as the
    input and its transliteration as the output, and at that moment calls
    the client for nothing and sends nothing to the service. The new input
    then goes through the debouncer like any other: in manual mode no
    request follows when time passes; in automatic mode, when the original
    is neither the input nor the debounced input from before and is not
    blank, the client is called with it once the 800 ms have passed, which
    with a credential sends a request to the service. *)
Theorem C8_selection_republishes_entry :
  forall (toLowerCase : jsstring -> jsstring) (API_KEY : option jsstring)
         (s : state) (i : nat) (item : HistoryItem),
    settled_render s ->
    nth_error (history s) i = Some item ->
    inputText (step toLowerCase API_KEY s (Select i)) = original item
    /\ outputText (step toLowerCase API_KEY s (Select i)) = transliterated item
    /\ calls (step toLowerCase API_KEY s (Select i)) = calls s
    /\ effects (step toLowerCase API_KEY s (Select i)) = effects s
    /\ inflight (step toLowerCase API_KEY s (Select i)) = inflight s
    /\ (autoMode s = false ->
        forall dt : N,
          calls (step toLowerCase API_KEY
                   (step toLowerCase API_KEY s (Select i)) (Elapse dt))
          = calls s
          /\ effects (step toLowerCase API_KEY
                        (step toLowerCase API_KEY s (Select i)) (Elapse dt))
             = effects s)
    /\ (autoMode s = true ->
        original item <> inputText s ->
        original item <> Debounce.debouncedValue (debounced s) ->
        truthy (trim (original item)) = true ->
        calls (step toLowerCase API_KEY
                 (step toLowerCase API_KEY s (Select i)) (Elapse 800))
        = calls s ++ [original item]
        /\ (truthy (apiKey API_KEY) = true ->
            network (step toLowerCase API_KEY
                       (step toLowerCase API_KEY s (Select i)) (Elapse 800))
            = network s ++ [Requested (the_request (original item))])).
Proof.
  intros toLowerCase API_KEY s i item R H.
  rewrite (select_step toLowerCase API_KEY s i item R H).
  destruct R as (D & E & _).
  set (s1 := with_debounced _ _).
  split; [reflexivity|].
  split; [reflexivity|].
  split; [reflexivity|].
  split; [reflexivity|].
  split; [reflexivity|].
  split.
  - intros A dt.
    apply (elapse_manual toLowerCase API_KEY s1 dt); exact A.
  - intros A NI ND W.
    assert (H1 : Debounce.handler (debounced s1)
                 = Some ((clock s1 + 800)%N, inputText s1)).
    { subst s1; cbn [debounced clock inputText with_debounced setOutputText
                       setInputText].
      rewrite (render_restarts jsstring Object_is 800);
        [reflexivity|rewrite D; exact NI]. }
    destruct (elapse_after_change toLowerCase API_KEY s1
                (Debounce.debouncedValue (debounced s)))
      as (s0 & St & C0 & E0).
    + apply debounce_render_deps.
    + exact H1.
    + subst s1; cbn [effectDeps with_debounced setOutputText setInputText].
      rewrite E, A; reflexivity.
    + exact A.
    + exact ND.
    + apply truthy_trim; exact W.
    + rewrite St; change (inputText s1) with (original item).
      split.
      * cbn [calls with_clock].
        rewrite calls_handleTransliterate, W, C0; reflexivity.
      * intros K.
        destruct (handleTransliterate_dispatch toLowerCase API_KEY
                    (original item) s0 K W) as (k & _ & Eq).
        rewrite Eq; unfold network, requests.
        cbn [effects with_clock suspend perform called setError setIsLoading].
        rewrite E0, filter_app; reflexivity.
Qed.

Lemma C8_selection_republishes_entry_witness :
  inputText (step ascii_toLowerCase Sample.secret
               (Sample.run_events Sample.cleared) (Select 0))
  = lit "namaskar"
  /\ outputText (step ascii_toLowerCase Sample.secret
                   (Sample.run_events Sample.cleared) (Select 0))
     = odia_namaskar
  /\ effects (step ascii_toLowerCase Sample.secret
                (Sample.run_events Sample.cleared) (Select 0))
     = effects (Sample.run_events Sample.cleared)
  /\ calls (step ascii_toLowerCase Sample.secret
              (step ascii_toLowerCase Sample.secret
                 (Sample.run_events Sample.cleared) (Select 0))
              (Elapse 800))
     = calls (Sample.run_events Sample.cleared) ++ [lit "namaskar"].
Proof.
  assert (R : settled_render (Sample.run_events Sample.cleared)).
  { split; [vm_compute; reflexivity|].
    split; [vm_compute; reflexivity|vm_compute; constructor]. }
  assert (H : nth_error (history (Sample.run_events Sample.cleared)) 0
              = Some (newItem 800 (lit "namaskar") odia_namaskar))
    by (vm_compute; reflexivity).
  destruct (C8_selection_republishes_entry ascii_toLowerCase Sample.secret
              (Sample.run_events Sample.cleared) 0
              (newItem 800 (lit "namaskar") odia_namaskar) R H)
    as (H1 & H2 & _ & H4 & _ & _ & Auto).
  split; [exact H1|].
  split; [exact H2|].
  split; [exact H4|].
  apply Auto; vm_compute; [reflexivity|discriminate|discriminate|reflexivity].
Defined.

(* ================================================================== *)
(** ** Further properties of the transliteration client *)
(* ================================================================== *)

Lemma trimStart_split (s : jsstring) :
  exists p, s = p ++ trimStart s.
Proof.
  induction s as [|c s [p IH]]; [exists []; reflexivity|].
  cbn [trimStart]; destruct (isWhiteSpace c).
  - exists (c :: p); cbn [app]; f_equal; exact IH.
  - exists []; reflexivity.
Qed.

Lemma trimStart_fixed (c : N) (t : jsstring) :
  isWhiteSpace c = false -> trimStart (c :: t) = c :: t.
Proof. intros H; cbn [trimStart]; rewrite H; reflexivity. Qed.

(** Trimming a trimmed string changes nothing. *)
Lemma trim_idempotent (s : jsstring) : trim (trim s) = trim s.
Proof.
  unfold trim at 2 3, trimEnd.
  set (a := trimStart s).
  destruct (trimStart_split (rev a)) as [p Hp].
  destruct (trimStart (rev a)) as [|c u] eqn:U; [reflexivity|].
  pose proof (trimStart_head (rev a) c u U) as Hc.
  assert (Ha : a = rev (c :: u) ++ rev p).
  { rewrite <- rev_app_distr, <- Hp, rev_involutive; reflexivity. }
  destruct (rev (c :: u)) as [|x t] eqn:R.
  { apply (f_equal (@rev N)) in R; rewrite rev_involutive in R; discriminate R. }
  assert (Hx : isWhiteSpace x = false).
  { apply (trimStart_head s x (t ++ rev p)); fold a; rewrite Ha; reflexivity. }
  unfold trim, trimEnd.
  rewrite (trimStart_fixed x t Hx), <- R, rev_involutive.
  rewrite (trimStart_fixed c u Hc); reflexivity.
Qed.

(** X1: Whatever the credential, the input and the service, a string that
    [transliterateToOdia] returns has no white space at either end. *)
Theorem transliterate_result_is_trimmed :
  forall (API_KEY : option jsstring) (svc : service) (input r : jsstring),
    snd (run svc (transliterateToOdia API_KEY input)) = Fulfilled r ->
    trim r = r.
Proof.
  intros API_KEY svc input r H.
  destruct (truthy (apiKey API_KEY)) eqn:K.
  - destruct (whitespace_only input) eqn:W.
    + rewrite (transliterateToOdia_blank _ _ K W) in H.
      injection H as <-; reflexivity.
    + rewrite (run_request _ _ svc K W) in H.
      destruct (svc 0 (the_request input)) as [[[t|]]|e]; cbn in H.
      * unfold or_else in H; destruct (truthy (trim t)); injection H as <-;
          [apply trim_idempotent|reflexivity].
      * injection H as <-; reflexivity.
      * discriminate H.
  - rewrite (transliterateToOdia_absent _ input K) in H; discriminate H.
Qed.

Lemma transliterate_result_is_trimmed_witness :
  trim Sample.odia_ka = Sample.odia_ka.
Proof.
  apply (transliterate_result_is_trimmed Sample.secret
           (fun _ _ => Fulfilled {| text := Some ([32; 10] ++ Sample.odia_ka ++ [9; 32])%N |})
           (lit "ka") Sample.odia_ka).
  vm_compute; reflexivity.
Defined.

(** X2: With a credential and an input that is not blank, an answer of the
    service is returned trimmed, after that one request and with nothing on
    the console; and the result is the empty string exactly when the answer
    carries no text or only white space. *)
Theorem transliterate_answer_is_returned_trimmed :
  forall (API_KEY : option jsstring) (svc : service) (input : jsstring)
         (resp : GenerateContentResponse),
    truthy (apiKey API_KEY) = true ->
    whitespace_only input = false ->
    svc 0 (the_request input) = Fulfilled resp ->
    run svc (transliterateToOdia API_KEY input)
    = ([Requested (the_request input)],
       Fulfilled (match text resp with Some t => trim t | None => [] end))
    /\ (match text resp with Some t => trim t | None => [] end = []
        <-> text resp = None
            \/ exists t, text resp = Some t /\ whitespace_only t = true).
Proof.
  intros API_KEY svc input resp K W A.
  rewrite (run_answer _ _ svc resp K W A).
  destruct resp as [[t|]]; cbn [text option_map or_else].
  - split.
    + destruct (trim t); reflexivity.
    + split.
      * intros E; right; exists t; split; [reflexivity|].
        apply trim_blank; rewrite E; reflexivity.
      * intros [E|(t' & E & Wt)]; [discriminate E|].
        injection E as <-; apply trim_blank in Wt.
        destruct (trim t); [reflexivity|discriminate Wt].
  - split; [reflexivity|].
    split; [left; reflexivity|reflexivity].
Qed.

Lemma transliterate_answer_is_returned_trimmed_witness :
  run (fun _ _ => Fulfilled {| text := Some ([32] ++ odia_namaskar ++ [10])%N |})
      (transliterateToOdia Sample.secret (lit "namaskar"))
  = ([Requested (the_request (lit "namaskar"))], Fulfilled odia_namaskar).
Proof.
  apply (transliterate_answer_is_returned_trimmed Sample.secret
           (fun _ _ => Fulfilled {| text := Some ([32] ++ odia_namaskar ++ [10])%N |})
           (lit "namaskar") {| text := Some ([32] ++ odia_namaskar ++ [10])%N |});
    reflexivity.
Defined.

(** X3: Whatever the credential, the input and the service, one call of
    [transliterateToOdia] sends at most one request; when it throws, the
    error carries one of the two fixed messages of the module; and it writes
    on the console only when it throws the second of them. *)
Theorem transliterate_outcomes :
  forall (API_KEY : option jsstring) (svc : service) (input : jsstring),
    List.length (requests (fst (run svc (transliterateToOdia API_KEY input)))) <= 1
    /\ (forall e : JsError,
          snd (run svc (transliterateToOdia API_KEY input)) = Rejected e ->
          e = new_Error KEY_MISSING \/ e = new_Error FAILED)
    /\ (forall (label : jsstring) (cause : JsError),
          In (Logged label cause)
             (fst (run svc (transliterateToOdia API_KEY input))) ->
          svc 0 (the_request input) = Rejected cause
          /\ snd (run svc (transliterateToOdia API_KEY input))
             = Rejected (new_Error FAILED)).
Proof.
  intros API_KEY svc input.
  destruct (truthy (apiKey API_KEY)) eqn:K.
  - destruct (whitespace_only input) eqn:W.
    + rewrite (transliterateToOdia_blank _ _ K W); cbn.
      split; [lia|split; [discriminate|tauto]].
    + rewrite (run_request _ _ svc K W).
      destruct (svc 0 (the_request input)) as [resp|e0]; cbn.
      * split; [lia|split; [discriminate|]].
        intros l c [H|[]]; discriminate H.
      * split; [lia|split].
        -- intros e H; injection H as <-; right; reflexivity.
        -- intros l c [H|[H|[]]]; [discriminate H|].
           injection H as _ <-; split; reflexivity.
  - rewrite (transliterateToOdia_absent _ input K); cbn.
    split; [lia|split; [|tauto]].
    intros e H; injection H as <-; left; reflexivity.
Qed.

(** X4: The prompt determines the input: two inputs with the same prompt, or
    the same request, are the same input. *)
Theorem prompt_determines_input :
  forall a b : jsstring,
    (prompt_of a = prompt_of b -> a = b)
    /\ (the_request a = the_request b -> a = b).
Proof.
  assert (P : forall a b, prompt_of a = prompt_of b -> a = b).
  { intros a b H; unfold prompt_of in H.
    repeat apply app_inv_head in H.
    apply app_inv_tail in H; exact H. }
  intros a b; split; [apply P|].
  intros H; apply P; exact (f_equal contents H).
Qed.

(* ================================================================== *)
(** ** Further properties of the input debouncer *)
(* ================================================================== *)

Section HookInvariant.

Variable T : Type.
Variable T_eq_dec : forall a b : T, {a = b} + {a <> b}.
Variable delay : N.

Lemma caught_up_mount t0 (v0 : T) :
  Debounce.caught_up delay t0 v0 (Debounce.mount t0 v0 delay).
Proof. split; [reflexivity|split; [reflexivity|apply N.le_refl]]. Qed.

Lemma caught_up_render t0 t v0 v (h : Debounce.hook T) :
  (t0 <= t)%N ->
  Debounce.caught_up delay t0 v0 h ->
  Debounce.caught_up delay t v (Debounce.render T_eq_dec t v delay h).
Proof.
  intros L [D H]; unfold Debounce.render, Debounce.same_deps.
  rewrite D; cbn [fst snd]; rewrite N.eqb_refl, andb_true_r.
  destruct (T_eq_dec v v0) as [->|_].
  - split; [exact D|].
    destruct (Debounce.handler h) as [[d w]|]; [|exact H].
    destruct H as [-> B]; split; [reflexivity|lia].
  - split; [reflexivity|split; [reflexivity|apply N.le_refl]].
Qed.

Lemma caught_up_advance now t v (h : Debounce.hook T) :
  Debounce.caught_up delay t v h ->
  Debounce.caught_up delay t v (fst (Debounce.advance now h)).
Proof.
  intros [D H]; unfold Debounce.advance.
  destruct (Debounce.handler h) as [[d w]|] eqn:E.
  - destruct (d <=? now)%N; cbn [fst].
    + split; [exact D|]; cbn; tauto.
    + unfold Debounce.caught_up; rewrite E; split; [exact D|exact H].
  - unfold Debounce.caught_up; cbn [fst]; rewrite E; split; [exact D|exact H].
Qed.

Lemma caught_up_updates (us : list (N * T)) :
  forall (h : Debounce.hook T) t0 v0,
    Debounce.caught_up delay t0 v0 h ->
    Debounce.ascending t0 us ->
    Debounce.caught_up delay (fst (last us (t0, v0))) (snd (last us (t0, v0)))
      (fst (Debounce.updates T_eq_dec delay us h)).
Proof.
  induction us as [|[t v] us IH]; intros h t0 v0 C A; [exact C|].
  destruct A as [L A]; cbn [Debounce.updates].
  pose proof (caught_up_advance t t0 v0 h C) as C1.
  destruct (Debounce.advance t h) as [h1 l1]; cbn [fst] in C1.
  pose proof (IH _ t v (caught_up_render t0 t v0 v h1 L C1) A) as C2.
  destruct (Debounce.updates T_eq_dec delay us _) as [h2 l2].
  rewrite last_cons; exact C2.
Qed.



End HookInvariant.

(** X5: Whatever the updates, in the order of their times, once [delay] has
    passed since the last of them the settled value is the last value the
    hook was given, and no timeout is pending. *)
Theorem debounce_catches_up :
  forall (T : Type) (T_eq_dec : forall a b : T, {a = b} + {a <> b})
         (delay t0 : N) (v0 : T) (us : list (N * T)) (t_end : N),
    Debounce.ascending t0 us ->
    (fst (last us (t0, v0)) + delay <= t_end)%N ->
    Debounce.debouncedValue
      (fst (Debounce.observe T_eq_dec delay us t_end (Debounce.mount t0 v0 delay)))
    = snd (last us (t0, v0))
    /\ Debounce.handler
         (fst (Debounce.observe T_eq_dec delay us t_end (Debounce.mount t0 v0 delay)))
       = None.
Proof.
  intros T T_eq_dec delay t0 v0 us t_end A L.
  pose proof (caught_up_updates T T_eq_dec delay us _ t0 v0
                (caught_up_mount T delay t0 v0) A) as [D H].
  unfold Debounce.observe.
  destruct (Debounce.updates T_eq_dec delay us _) as [h l]; cbn [fst] in *.
  unfold Debounce.advance.
  destruct (Debounce.handler h) as [[d w]|] eqn:E.
  - destruct H as [-> B].
    assert (Q : (d <=? t_end)%N = true) by (apply N.leb_le; lia).
    rewrite Q; split; reflexivity.
  - split; [exact H|exact E].
Qed.

Lemma debounce_catches_up_witness :
  Debounce.debouncedValue
    (fst (Debounce.observe App.Object_is 800
            [(100, lit "n"); (1500, lit "n"); (1600, lit "na"); (4000, lit "nam")]%N
            4800 (Debounce.mount 0 [] 800)))
  = lit "nam".
Proof.
  apply (debounce_catches_up jsstring App.Object_is 800 0 []
           [(100, lit "n"); (1500, lit "n"); (1600, lit "na"); (4000, lit "nam")]%N
           4800).
  - simpl; repeat split; lia.
  - simpl; lia.
Defined.



(* ================================================================== *)
(** ** What the component keeps true *)
(* ================================================================== *)

Lemma Forall_filter_orig {A} (P : A -> Prop) f (l : list A) :
  Forall P l -> Forall P (filter f l).
Proof.
  rewrite !Forall_forall; intros H x Hx; apply H.
  apply filter_In in Hx; tauto.
Qed.

Lemma Forall_firstn_orig {A} (P : A -> Prop) n (l : list A) :
  Forall P l -> Forall P (firstn n l).
Proof.
  rewrite !Forall_forall; intros H x Hx; apply H.
  apply (firstn_In_orig n l x Hx).
Qed.

Lemma StronglySorted_filter_orig {A} (R : A -> A -> Prop) f (l : list A) :
  StronglySorted R l -> StronglySorted R (filter f l).
Proof.
  induction 1 as [|a l S IH F]; cbn [filter]; [constructor|].
  destruct (f a); [|exact IH].
  constructor; [exact IH|apply Forall_filter_orig; exact F].
Qed.

Lemma StronglySorted_firstn_orig {A} (R : A -> A -> Prop) n (l : list A) :
  StronglySorted R l -> StronglySorted R (firstn n l).
Proof.
  intros S; revert n; induction S as [|a l S IH F]; intros [|n];
    cbn [firstn]; try constructor.
  - apply IH.
  - apply Forall_firstn_orig; exact F.
Qed.

Lemma entry_ok_later now now' p :
  (now <= now')%N -> entry_ok now p -> entry_ok now' p.
Proof. unfold entry_ok; intros L H; repeat split; try apply H; lia. Qed.

Section CoreFacts.

Variable toLowerCase : jsstring -> jsstring.
Variable API_KEY : option jsstring.

Lemma upsert_entries now input result prev :
  entry_ok now (newItem now input result) ->
  Forall (entry_ok now) prev ->
  Forall (entry_ok now) (upsert toLowerCase now input result prev).
Proof.
  intros N F; rewrite upsert_shape; constructor; [exact N|].
  apply Forall_firstn_orig, Forall_filter_orig; exact F.
Qed.

Lemma upsert_newest_first now input result prev :
  Forall (entry_ok now) prev ->
  newest_first prev ->
  newest_first (upsert toLowerCase now input result prev).
Proof.
  intros F S; rewrite upsert_shape; constructor.
  - apply StronglySorted_firstn_orig, StronglySorted_filter_orig; exact S.
  - apply Forall_firstn_orig, Forall_filter_orig.
    eapply Forall_impl; [|exact F].
    intros p H; cbn [newItem timestamp]; apply H.
Qed.

(** The call settles: the rest of [handleTransliterate]. *)
Lemma core_settled input out s :
  truthy (trim input) = true ->
  (forall r, out = Fulfilled r -> trim r = r) ->
  core API_KEY s ->
  core API_KEY (handleTransliterate_settled toLowerCase input out s).
Proof.
  intros W Tr (I & C & Nw & K & Hd & E & S).
  unfold handleTransliterate_settled.
  destruct out as [result|err]; [|repeat split; assumption].
  destruct ((2 <? List.length input) && truthy result) eqn:G;
    [|repeat split; assumption].
  apply andb_true_iff in G; destruct G as [G1 G2]; apply Nat.ltb_lt in G1.
  split; [exact I|split; [exact C|split; [exact Nw|split; [exact K|]]]].
  split; [exact Hd|].
  cbn [history setIsLoading setHistory setOutputText clock]; split.
  - apply upsert_entries; [|exact E].
    repeat split; cbn [newItem original transliterated id timestamp];
      [exact G1|exact W|exact G2|apply Tr; reflexivity|apply N.le_refl].
  - apply upsert_newest_first; assumption.
Qed.

Lemma network_perform tr s :
  requests tr = [] -> network (perform tr s) = network s.
Proof.
  intros H; unfold network, requests in *; cbn [effects perform].
  rewrite filter_app, H, app_nil_r; reflexivity.
Qed.

Lemma core_perform tr s :
  requests tr = [] -> core API_KEY s -> core API_KEY (perform tr s).
Proof.
  intros H (I & C & Nw & K & Hd & E & S).
  repeat split; try assumption.
  unfold one_request_per_call in *.
  rewrite (network_perform tr s H); exact Nw.
Qed.

(** The service answers a call in flight. *)
Lemma core_answer input a s :
  truthy (trim input) = true ->
  core API_KEY s ->
  core API_KEY (drive toLowerCase input (after_await a) s).
Proof.
  intros W H; unfold drive.
  destruct a as [resp|e]; cbn [after_await poll].
  - apply core_settled; [exact W| |apply core_perform; [reflexivity|exact H]].
    intros r Hr; injection Hr as <-.
    destruct (text resp) as [t|]; cbn [option_map or_else]; [|reflexivity].
    destruct (truthy (trim t)); [apply trim_idempotent|reflexivity].
  - apply core_settled; [exact W|discriminate|].
    apply core_perform; [reflexivity|exact H].
Qed.

Lemma core_handleTransliterate input s :
  core API_KEY s ->
  core API_KEY (handleTransliterate toLowerCase API_KEY input s).
Proof.
  intros H; unfold handleTransliterate.
  destruct (truthy (trim input)) eqn:W; cbn [negb]; [|exact H].
  destruct H as (I & C & Nw & K & Hd & E & S).
  assert (C' : Forall (fun t => truthy (trim t) = true) (calls s ++ [input])).
  { apply Forall_app; split; [exact C|constructor; [exact W|constructor]]. }
  destruct (truthy (apiKey API_KEY)) eqn:Key.
  - destruct (transliterateToOdia_request API_KEY input Key
                (proj1 (trim_not_blank input) W)) as (k & Eq & Hk).
    rewrite Eq; unfold drive; cbn [poll].
    assert (I' : Forall request_ok
                   (inflight s
                    ++ [{| rid := nextRid s; rtext := input; rcont := k |}])).
    { apply Forall_app; split; [exact I|].
      constructor; [split; [exact W|exact Hk]|constructor]. }
    assert (Nw' : network s ++ [Requested (the_request input)]
                  = map (fun t => Requested (the_request t)) (calls s ++ [input])).
    { unfold one_request_per_call in Nw; rewrite Key in Nw.
      rewrite map_app, Nw; reflexivity. }
    split; [exact I'|].
    split; [exact C'|].
    split.
    { unfold one_request_per_call, network, requests.
      cbn [effects calls suspend perform called setError setIsLoading].
      rewrite Key, filter_app; exact Nw'. }
    split; [intros F; congruence|].
    split; [exact Hd|].
    split; [exact E|exact S].
  - rewrite (transliterateToOdia_absent API_KEY input Key).
    unfold drive; cbn [poll].
    apply core_settled; [exact W|discriminate|].
    apply core_perform; [reflexivity|].
    split; [exact I|].
    split; [exact C'|].
    split.
    { unfold one_request_per_call in *; rewrite Key in *; exact Nw. }
    split; [intros _; exact (K eq_refl)|].
    split; [exact Hd|].
    split; [exact E|exact S].
Qed.

Lemma core_reply r a s :
  core API_KEY s -> core API_KEY (reply toLowerCase r a s).
Proof.
  intros H; unfold reply.
  destruct (find _ (inflight s)) as [q|] eqn:F; [|exact H].
  destruct H as (I & C & Nw & K & Hd & E & S).
  apply find_some in F; destruct F as [Hq _].
  rewrite Forall_forall in I; destruct (I q Hq) as [W Hk].
  rewrite Hk; apply core_answer; [exact W|].
  repeat split; try assumption.
  - cbn [inflight resumed]; apply Forall_filter_orig, Forall_forall; exact I.
  - intros Key; cbn [inflight resumed]; rewrite (K Key); reflexivity.
Qed.

Lemma core_autoEffect s :
  core API_KEY s -> core API_KEY (autoEffect toLowerCase API_KEY s).
Proof.
  intros H; unfold autoEffect.
  destruct (autoMode s && truthy _); [apply core_handleTransliterate; exact H|].
  destruct (negb (truthy _)); exact H.
Qed.

Lemma debounce_render_handler now v (h : Debounce.hook jsstring) :
  match Debounce.handler h with
  | Some (d, _) => (now <= d)%N
  | None => True
  end ->
  match Debounce.handler (Debounce.render Object_is now v 800 h) with
  | Some (d, _) => (now <= d)%N
  | None => True
  end.
Proof.
  intros H; unfold Debounce.render.
  destruct (Debounce.same_deps _ _ _); [exact H|].
  cbn [Debounce.handler]; lia.
Qed.

Lemma core_render s :
  core API_KEY s -> core API_KEY (render toLowerCase API_KEY s).
Proof.
  intros (I & C & Nw & K & Hd & E & S); unfold render.
  assert (H1 : core API_KEY
                 (with_debounced
                    (Debounce.render Object_is (clock s) (inputText s) 800
                       (debounced s)) s)).
  { repeat split; try assumption.
    apply (debounce_render_handler (clock s) (inputText s) (debounced s) Hd). }
  destruct (same_effectDeps _ _); [exact H1|].
  apply core_autoEffect; exact H1.
Qed.

Lemma core_with_clock t s :
  (clock s <= t)%N ->
  match Debounce.handler (debounced s) with
  | Some (d, _) => (t <= d)%N
  | None => True
  end ->
  core API_KEY s -> core API_KEY (with_clock t s).
Proof.
  intros L Hd' (I & C & Nw & K & _ & E & S).
  repeat split; try assumption.
  cbn [history with_clock clock].
  eapply Forall_impl; [|exact E].
  intros p; apply entry_ok_later; exact L.
Qed.

Lemma render_keeps_hook s :
  Debounce.deps (debounced s) = (inputText s, 800%N) ->
  debounced (render toLowerCase API_KEY s) = debounced s
  /\ clock (render toLowerCase API_KEY s) = clock s.
Proof.
  intros D; unfold render.
  rewrite (render_same jsstring Object_is 800 (clock s) (inputText s) _ D).
  destruct (same_effectDeps _ _); [split; reflexivity|].
  match goal with
  | |- context [autoEffect _ _ ?X] =>
      destruct (autoEffect_frame toLowerCase API_KEY X) as (_ & _ & F3 & _ & F5)
  end.
  rewrite F3, F5; split; reflexivity.
Qed.

Lemma core_step s e :
  settled_render s -> core API_KEY s ->
  core API_KEY (step toLowerCase API_KEY s e).
Proof.
  intros (D & _ & _) H.
  destruct e as [v| | | |i| |dt|r a]; cbn [step].
  - apply core_render; exact H.
  - apply core_render; exact H.
  - destruct (autoMode s || _); [exact H|].
    apply core_render, core_handleTransliterate; exact H.
  - apply core_render; exact H.
  - destruct (nth_error (history s) i); [|exact H].
    apply core_render; exact H.
  - apply core_render.
    destruct H as (I & C & Nw & K & Hd & E & S).
    split; [exact I|split; [exact C|split; [exact Nw|split; [exact K|]]]].
    split; [exact Hd|split; constructor].
  - unfold Debounce.advance.
    destruct (Debounce.handler (debounced s)) as [[d v]|] eqn:Eh.
    + destruct (d <=? clock s + dt)%N eqn:Le.
      * apply N.leb_le in Le.
        set (h := {| Debounce.debouncedValue := v |}).
        set (Y := with_debounced h (with_clock d s)).
        assert (Hd : (clock s <= d)%N).
        { destruct H as (_ & _ & _ & _ & Hd & _); rewrite Eh in Hd; exact Hd. }
        assert (HY : core API_KEY Y).
        { destruct H as (I & C & Nw & K & _ & E & S).
          split; [exact I|split; [exact C|split; [exact Nw|split; [exact K|]]]].
          split; [exact Logic.I|split; [|exact S]].
          cbn [history Y with_debounced with_clock clock].
          eapply Forall_impl; [|exact E].
          intros p; apply entry_ok_later; exact Hd. }
        destruct (render_keeps_hook Y D) as [Rh Rc].
        apply core_with_clock.
        -- rewrite Rc; exact Le.
        -- rewrite Rh; exact Logic.I.
        -- apply core_render; exact HY.
      * apply N.leb_gt in Le.
        apply core_with_clock; [lia|rewrite Eh; lia|exact H].
    + apply core_with_clock; [lia|rewrite Eh; exact Logic.I|exact H].
  - apply core_render, core_reply; exact H.
Qed.

Lemma core_mount t0 : core API_KEY (mount toLowerCase API_KEY t0).
Proof.
  unfold mount; apply core_autoEffect.
  split; [constructor|split; [constructor|split]].
  - unfold one_request_per_call; destruct (truthy (apiKey API_KEY)); reflexivity.
  - split; [reflexivity|].
    split; [cbn; lia|split; constructor].
Qed.

Lemma reachable_core s :
  reachable toLowerCase API_KEY s -> core API_KEY s.
Proof.
  induction 1 as [t0|s e R IH]; [apply core_mount|].
  apply core_step; [apply (reachable_settled_render _ _ _ R)|exact IH].
Qed.

(** The loading indicator. *)
Lemma idle_drive input p s :
  idle_not_loading (drive toLowerCase input p s).
Proof.
  unfold drive, idle_not_loading; destruct (poll p) as [tr [out|k]].
  - intros _; unfold handleTransliterate_settled.
    destruct out as [result|err]; [|reflexivity].
    destruct ((2 <? List.length input) && truthy result); reflexivity.
  - cbn [inflight suspend]; intros H.
    apply app_eq_nil in H; destruct H as [_ H]; discriminate H.
Qed.

Lemma idle_handleTransliterate input s :
  idle_not_loading s ->
  idle_not_loading (handleTransliterate toLowerCase API_KEY input s).
Proof.
  intros H; unfold handleTransliterate.
  destruct (negb (truthy (trim input))); [exact H|apply idle_drive].
Qed.

Lemma idle_render s :
  idle_not_loading s -> idle_not_loading (render toLowerCase API_KEY s).
Proof.
  intros H; unfold render.
  destruct (same_effectDeps _ _); [exact H|].
  unfold autoEffect.
  destruct (autoMode _ && truthy _); [apply idle_handleTransliterate; exact H|].
  destruct (negb (truthy _)); exact H.
Qed.

Lemma idle_step s e :
  idle_not_loading s -> idle_not_loading (step toLowerCase API_KEY s e).
Proof.
  intros H; destruct e as [v| | | |i| |dt|r a]; cbn [step].
  - apply idle_render; exact H.
  - apply idle_render; exact H.
  - destruct (autoMode s || _); [exact H|].
    apply idle_render, idle_handleTransliterate; exact H.
  - apply idle_render; exact H.
  - destruct (nth_error (history s) i); [|exact H].
    apply idle_render; exact H.
  - apply idle_render; exact H.
  - destruct (Debounce.advance _ (debounced s)) as [h [|[d v] l]]; [exact H|].
    apply (idle_render (with_debounced h (with_clock d s))); exact H.
  - apply idle_render; unfold reply.
    destruct (find _ (inflight s)); [apply idle_drive|exact H].
Qed.

Lemma reachable_idle s :
  reachable toLowerCase API_KEY s -> idle_not_loading s.
Proof.
  induction 1 as [t0|s e _ IH]; [|apply idle_step; exact IH].
  unfold mount.
  match goal with
  | |- idle_not_loading (autoEffect _ _ ?X) =>
      assert (H0 : idle_not_loading X) by (intros _; reflexivity);
      unfold autoEffect;
      destruct (autoMode X && truthy _);
        [apply idle_handleTransliterate; exact H0|];
      destruct (negb (truthy _)); exact H0
  end.
Qed.

End CoreFacts.

Lemma reachable_steps toLowerCase API_KEY s es :
  reachable toLowerCase API_KEY s ->
  reachable toLowerCase API_KEY (steps toLowerCase API_KEY s es).
Proof.
  revert s; induction es as [|e es IH]; intros s R; [exact R|].
  apply (IH (step toLowerCase API_KEY s e)), reachable_step; exact R.
Qed.

Lemma reachable_run_events es :
  reachable ascii_toLowerCase Sample.secret (Sample.run_events es).
Proof. apply reachable_steps, reachable_mount. Qed.

(** X7: In every state the component reaches, the service has received exactly
    one request for each call of the client, in the order of the calls,
    each carrying the prompt of the text of its call, and no text the client
    was called with is blank; without a credential the service has received
    nothing and no call is in flight. *)
Theorem service_gets_one_request_per_call :
  forall (toLowerCase : jsstring -> jsstring) (API_KEY : option jsstring)
         (s : state),
    reachable toLowerCase API_KEY s ->
    network s
    = (if truthy (apiKey API_KEY)
       then map (fun t => Requested (the_request t)) (calls s)
       else [])
    /\ Forall (fun t => whitespace_only t = false) (calls s)
    /\ (truthy (apiKey API_KEY) = false -> inflight s = [] /\ network s = []).
Proof.
  intros toLowerCase API_KEY s R.
  destruct (reachable_core toLowerCase API_KEY s R) as (_ & C & Nw & K & _).
  split; [exact Nw|split].
  - eapply Forall_impl; [|exact C].
    intros t; apply trim_not_blank.
  - intros Key; split; [exact (K Key)|].
    unfold one_request_per_call in Nw; rewrite Key in Nw; exact Nw.
Qed.

Lemma service_gets_one_request_per_call_witness :
  network (Sample.run_events Sample.race)
  = map (fun t => Requested (the_request t))
        (calls (Sample.run_events Sample.race)).
Proof.
  apply (service_gets_one_request_per_call ascii_toLowerCase Sample.secret
           (Sample.run_events Sample.race)
           (reachable_run_events Sample.race)).
Defined.

(** X8: In every state the component reaches, when no call is in flight the
    loading indicator is off. *)
Theorem nothing_in_flight_means_not_loading :
  forall (toLowerCase : jsstring -> jsstring) (API_KEY : option jsstring)
         (s : state),
    reachable toLowerCase API_KEY s ->
    inflight s = [] ->
    isLoading s = false.
Proof.
  intros toLowerCase API_KEY s R.
  apply (reachable_idle toLowerCase API_KEY s R).
Qed.

Lemma nothing_in_flight_means_not_loading_witness :
  isLoading (Sample.run_events Sample.race) = false.
Proof.
  apply (nothing_in_flight_means_not_loading ascii_toLowerCase Sample.secret
           (Sample.run_events Sample.race)
           (reachable_run_events Sample.race)).
  vm_compute; reflexivity.
Defined.



(** X10: In every state the component reaches, the history is in the order of
    recency: no entry has a timestamp below that of an entry after it. *)
Theorem history_is_newest_first :
  forall (toLowerCase : jsstring -> jsstring) (API_KEY : option jsstring)
         (s : state) (i j : nat) (p q : HistoryItem),
    reachable toLowerCase API_KEY s ->
    i < j ->
    nth_error (history s) i = Some p ->
    nth_error (history s) j = Some q ->
    (timestamp q <= timestamp p)%N.
Proof.
  intros toLowerCase API_KEY s i j p q R.
  destruct (reachable_core toLowerCase API_KEY s R) as (_ & _ & _ & _ & _ & _ & S).
  unfold newest_first in S; revert i j.
  induction S as [|a l S IH F]; intros i j L Hi Hj.
  - destruct i; discriminate Hi.
  - destruct j as [|j]; [lia|].
    destruct i as [|i]; cbn [nth_error] in Hi, Hj.
    + injection Hi as <-.
      rewrite Forall_forall in F; apply F.
      apply (nth_error_In _ _ Hj).
    + apply (IH i j); [lia|exact Hi|exact Hj].
Qed.

Lemma history_is_newest_first_witness :
  (timestamp (newItem 800 (lit "namaskar") odia_namaskar)
   <= timestamp (newItem 1600 (lit "mu bhala achi") odia_mu_bhala_achi))%N.
Proof.
  apply (history_is_newest_first ascii_toLowerCase Sample.secret
           (Sample.run_events Sample.two_entries) 0 1
           (newItem 1600 (lit "mu bhala achi") odia_mu_bhala_achi)
           (newItem 800 (lit "namaskar") odia_namaskar)
           (reachable_run_events Sample.two_entries)).
  - lia.
  - vm_compute; reflexivity.
  - vm_compute; reflexivity.
Defined.

(* ================================================================== *)
(** ** How the events compose *)
(* ================================================================== *)

Section Scenarios.

Variable toLowerCase : jsstring -> jsstring.
Variable API_KEY : option jsstring.

(** A render when the dependencies of the auto-transliteration effect are
    the ones it last ran with: only the effect of [useDebounce] may run. *)
Lemma render_no_effect s :
  effectDeps s = (Debounce.debouncedValue (debounced s), autoMode s) ->
  render toLowerCase API_KEY s
  = with_debounced
      (Debounce.render Object_is (clock s) (inputText s) 800 (debounced s)) s.
Proof.
  intros E; unfold render.
  cbn [debounced autoMode effectDeps with_debounced].
  rewrite debounce_render_value, E.
  assert (Q : forall x, same_effectDeps x x = true)
    by (intros x; apply same_effectDeps_eq; reflexivity).
  rewrite Q; reflexivity.
Qed.

(** An edit that changes the input sets the timeout anew. *)
Lemma edit_step s v :
  settled_render s -> v <> inputText s ->
  step toLowerCase API_KEY s (Edit v)
  = with_debounced
      {| Debounce.debouncedValue := Debounce.debouncedValue (debounced s);
         Debounce.deps := (v, 800%N);
         Debounce.handler := Some ((clock s + 800)%N, v) |}
      (setInputText v s).
Proof.
  intros (D & E & _) NV; cbn [step].
  rewrite render_no_effect by exact E.
  cbn [clock inputText debounced setInputText].
  rewrite (render_restarts jsstring Object_is 800) by (rewrite D; exact NV).
  reflexivity.
Qed.

(** Time passes and no timeout is due. *)
Lemma elapse_early s dt d v :
  Debounce.handler (debounced s) = Some (d, v) ->
  (clock s + dt < d)%N ->
  step toLowerCase API_KEY s (Elapse dt) = with_clock (clock s + dt) s.
Proof.
  intros H L; cbn [step].
  rewrite (advance_early jsstring _ d v (debounced s) H L); reflexivity.
Qed.

(** Time passes and the timeout runs with a value other than the settled
    one: the auto-transliteration effect runs on a state [Y] that differs
    from the one before in the debouncer, the dependencies and the clock
    only. *)
Lemma elapse_fires s dt d v :
  settled_render s ->
  Debounce.handler (debounced s) = Some (d, v) ->
  (d <= clock s + dt)%N ->
  v <> Debounce.debouncedValue (debounced s) ->
  exists Y,
    step toLowerCase API_KEY s (Elapse dt)
    = with_clock (clock s + dt) (autoEffect toLowerCase API_KEY Y)
    /\ Debounce.debouncedValue (debounced Y) = v
    /\ Debounce.handler (debounced Y) = None
    /\ Debounce.deps (debounced Y) = Debounce.deps (debounced s)
    /\ effectDeps Y = (v, autoMode s)
    /\ clock Y = d
    /\ Y = with_effectDeps (v, autoMode s)
             (with_debounced
                {| Debounce.debouncedValue := v;
                   Debounce.deps := Debounce.deps (debounced s);
                   Debounce.handler := None |}
                (with_debounced
                   {| Debounce.debouncedValue := v;
                      Debounce.deps := Debounce.deps (debounced s);
                      Debounce.handler := None |}
                   (with_clock d s))).
Proof.
  intros (D & E & _) H L NV; cbn [step].
  rewrite (advance_due jsstring _ d v (debounced s) H L).
  unfold render.
  cbn [clock inputText debounced autoMode effectDeps with_debounced with_clock].
  set (h := {| Debounce.debouncedValue := v |}).
  rewrite (render_same jsstring Object_is 800 _ (inputText s) h D).
  change (Debounce.debouncedValue h) with v; rewrite E.
  assert (N : same_effectDeps (v, autoMode s)
                (Debounce.debouncedValue (debounced s), autoMode s) = false).
  { destruct (same_effectDeps _ _) eqn:Q; [|reflexivity].
    apply same_effectDeps_eq in Q; congruence. }
  rewrite N.
  eexists; split; [reflexivity|].
  repeat split.
Qed.

Lemma or_else_trim (o : option jsstring) :
  or_else (option_map trim o) []
  = match o with Some t => trim t | None => [] end.
Proof.
  destruct o as [t|]; cbn [option_map or_else]; [|reflexivity].
  destruct (trim t); reflexivity.
Qed.

End Scenarios.

(** X11: A request that succeeds. With a credential, a call of
    [handleTransliterate] with an input that is not blank turns the loading
    indicator on; when the service then answers, the output is the trimmed
    text of the answer (the empty string when it has none), the indicator is
    off, no error is shown, the call is no longer in flight, and the pair is
    upserted into the history exactly when the input has more than two code
    units and the result is not empty. *)
Theorem successful_request_shows_result :
  forall (toLowerCase : jsstring -> jsstring) (API_KEY : option jsstring)
         (s : state) (input : jsstring) (resp : GenerateContentResponse),
    settled_render s ->
    truthy (apiKey API_KEY) = true ->
    truthy (trim input) = true ->
    let result := match text resp with Some t => trim t | None => [] end in
    let s1 := handleTransliterate toLowerCase API_KEY input s in
    let s2 := step toLowerCase API_KEY s1 (Reply (nextRid s) (Fulfilled resp)) in
    isLoading s1 = true
    /\ outputText s2 = result
    /\ isLoading s2 = false
    /\ error s2 = None
    /\ inflight s2 = inflight s
    /\ history s2
       = if (2 <? List.length input) && truthy result
         then upsert toLowerCase (clock s) input result (history s)
         else history s.
Proof.
  intros toLowerCase API_KEY s input resp R K W result s1 s2.
  destruct (handleTransliterate_dispatch toLowerCase API_KEY input s K W)
    as (k & Hk & E).
  assert (F : frame s s1) by apply handleTransliterate_frame.
  subst s2 s1; rewrite E in *.
  split; [reflexivity|].
  cbn [step].
  set (s1 := suspend _ _ _) in *.
  set (q := {| rid := nextRid s; rtext := input; rcont := k |}).
  assert (Q : find (fun x => Nat.eqb (rid x) (nextRid s)) (inflight s1) = Some q).
  { apply (find_fresh (inflight s) [] q); apply R. }
  rewrite (reply_found toLowerCase _ _ s1 q Q (Hk _)).
  rewrite (render_after_frame toLowerCase API_KEY s).
  - unfold drive; cbn [after_await poll rtext q].
    rewrite or_else_trim; fold result.
    assert (I : filter (fun x => negb (Nat.eqb (rid x) (nextRid s)))
                  (inflight s ++ [{| rid := nextRid s; rtext := input; rcont := k |}])
                = inflight s).
    { destruct R as (_ & _ & B).
      rewrite filter_app, (filter_older _ _ _ B (le_n _)).
      cbn [filter rid]; rewrite Nat.eqb_refl; apply app_nil_r. }
    unfold handleTransliterate_settled.
    subst s1 q.
    destruct ((2 <? List.length input) && truthy result);
      cbn [outputText isLoading error inflight history clock nextRid
             setIsLoading setHistory setOutputText setError perform resumed
             suspend called];
      (split; [reflexivity|split; [reflexivity|split; [reflexivity|]]]);
      (split; [exact I|reflexivity]).
  - exact R.
  - eapply frame_trans; [exact F|].
    eapply frame_trans; [|apply drive_frame]; repeat split.
Qed.

Lemma successful_request_shows_result_witness :
  outputText
    (step ascii_toLowerCase Sample.secret
       (handleTransliterate ascii_toLowerCase Sample.secret (lit "namaskar")
          Sample.fresh)
       (Reply 0 (Fulfilled {| text := Some ([32] ++ odia_namaskar ++ [10])%N |})))
  = odia_namaskar
  /\ history
       (step ascii_toLowerCase Sample.secret
          (handleTransliterate ascii_toLowerCase Sample.secret (lit "namaskar")
             Sample.fresh)
          (Reply 0 (Fulfilled {| text := Some ([32] ++ odia_namaskar ++ [10])%N |})))
     = [newItem 0 (lit "namaskar") odia_namaskar].
Proof.
  assert (R : settled_render Sample.fresh).
  { split; [vm_compute; reflexivity|].
    split; [vm_compute; reflexivity|vm_compute; constructor]. }
  destruct (successful_request_shows_result ascii_toLowerCase Sample.secret
              Sample.fresh (lit "namaskar")
              {| text := Some ([32] ++ odia_namaskar ++ [10])%N |}
              R eq_refl eq_refl)
    as (_ & H2 & _ & _ & _ & H6).
  split; [exact H2|exact H6].
Defined.

(** X12: Without a credential, a call of [handleTransliterate] with an input
    that is not blank ends at once with the configuration message as the
    error, the loading indicator off, and the output, the history, the
    calls in flight and the requests the service has received as they
    were. *)
Theorem missing_credential_sets_error :
  forall (toLowerCase : jsstring -> jsstring) (API_KEY : option jsstring)
         (s : state) (input : jsstring),
    truthy (apiKey API_KEY) = false ->
    truthy (trim input) = true ->
    error (handleTransliterate toLowerCase API_KEY input s) = Some KEY_MISSING
    /\ isLoading (handleTransliterate toLowerCase API_KEY input s) = false
    /\ outputText (handleTransliterate toLowerCase API_KEY input s) = outputText s
    /\ history (handleTransliterate toLowerCase API_KEY input s) = history s
    /\ inflight (handleTransliterate toLowerCase API_KEY input s) = inflight s
    /\ network (handleTransliterate toLowerCase API_KEY input s) = network s.
Proof.
  intros toLowerCase API_KEY s input K W.
  rewrite (handleTransliterate_no_credential toLowerCase API_KEY input s K W).
  repeat split.
  unfold network; cbn; rewrite app_nil_r; reflexivity.
Qed.

Lemma missing_credential_sets_error_witness :
  error (handleTransliterate ascii_toLowerCase None (lit "namaskar")
           (mount ascii_toLowerCase None 0))
  = Some KEY_MISSING.
Proof.
  apply (missing_credential_sets_error ascii_toLowerCase None
           (mount ascii_toLowerCase None 0) (lit "namaskar"));
    reflexivity.
Defined.



Lemma step_autoMode toLowerCase API_KEY s e :
  e <> ToggleMode ->
  autoMode (step toLowerCase API_KEY s e) = autoMode s.
Proof.
  intros NT; destruct e as [v| | | |i| |dt|r a]; cbn [step];
    try (match goal with
         | |- autoMode (render _ _ ?X) = _ =>
             destruct (render_spec toLowerCase API_KEY X) as (_ & M & _);
             rewrite M; reflexivity
         end).
  - congruence.
  - destruct (autoMode s || _); [reflexivity|].
    destruct (render_spec toLowerCase API_KEY
                (handleTransliterate toLowerCase API_KEY (inputText s) s))
      as (_ & M & _).
    rewrite M; apply handleTransliterate_frame.
  - destruct (nth_error (history s) i); [|reflexivity].
    match goal with
    | |- autoMode (render _ _ ?X) = _ =>
        destruct (render_spec toLowerCase API_KEY X) as (_ & M & _);
        rewrite M; reflexivity
    end.
  - destruct (Debounce.advance _ (debounced s)) as [h [|[d v] l]]; [reflexivity|].
    cbn [autoMode with_clock].
    match goal with
    | |- autoMode (render _ _ ?X) = _ =>
        destruct (render_spec toLowerCase API_KEY X) as (_ & M & _);
        rewrite M; reflexivity
    end.
  - destruct (render_spec toLowerCase API_KEY (reply toLowerCase r a s))
      as (_ & M & _).
    rewrite M; apply reply_frame.
Qed.

(** X14: Manual mode. The manual trigger does nothing in automatic mode, while
    loading, or when the input is empty. In manual mode, when nothing is
    loading, it calls the client at once with the input as it is, debounced
    or not, when that is not blank, which with a credential sends one
    request and turns the loading indicator on; and no other event than the
    trigger and the switch of the mode calls the client. *)
Theorem manual_mode_sends_on_trigger_only :
  forall (toLowerCase : jsstring -> jsstring) (API_KEY : option jsstring)
         (s : state),
    settled_render s ->
    autoMode s = false ->
    (forall s' : state,
        autoMode s' = true \/ isLoading s' = true \/ inputText s' = [] ->
        step toLowerCase API_KEY s' ClickTransliterate = s')
    /\ (isLoading s = false ->
        truthy (trim (inputText s)) = true ->
        calls (step toLowerCase API_KEY s ClickTransliterate)
        = calls s ++ [inputText s]
        /\ (truthy (apiKey API_KEY) = true ->
            network (step toLowerCase API_KEY s ClickTransliterate)
            = network s ++ [Requested (the_request (inputText s))]
            /\ isLoading (step toLowerCase API_KEY s ClickTransliterate) = true))
    /\ (forall e : event,
          e <> ClickTransliterate -> e <> ToggleMode ->
          calls (step toLowerCase API_KEY s e) = calls s
          /\ autoMode (step toLowerCase API_KEY s e) = false).
Proof.
  intros toLowerCase API_KEY s R A.
  split; [|split].
  - intros s' [H|[H|H]]; cbn [step]; rewrite H.
    + reflexivity.
    + cbn [orb]; rewrite orb_true_r; reflexivity.
    + cbn [truthy negb]; rewrite !orb_true_r; reflexivity.
  - intros L W; cbn [step].
    rewrite A, L, (truthy_trim _ W); cbn [orb negb].
    rewrite (render_after_frame toLowerCase API_KEY s _ R
               (handleTransliterate_frame toLowerCase API_KEY (inputText s) s)).
    split; [rewrite calls_handleTransliterate, W; reflexivity|].
    intros K.
    destruct (handleTransliterate_dispatch toLowerCase API_KEY (inputText s) s K W)
      as (k & _ & E).
    rewrite E; split; [|reflexivity].
    unfold network, requests; cbn [effects suspend perform].
    rewrite filter_app; reflexivity.
  - intros e NC NT.
    pose proof (step_autoMode toLowerCase API_KEY s e NT) as M.
    rewrite (step_calls toLowerCase API_KEY s e R NC), M, A.
    rewrite andb_false_r; split; reflexivity.
Qed.

Lemma manual_mode_sends_on_trigger_only_witness :
  calls (step ascii_toLowerCase Sample.secret
           (Sample.run_events Sample.settled_in_manual) ClickTransliterate)
  = calls (Sample.run_events Sample.settled_in_manual) ++ [lit "namaskar"]
  /\ calls (step ascii_toLowerCase Sample.secret
              (Sample.run_events Sample.settled_in_manual) (Edit (lit "nam")))
     = calls (Sample.run_events Sample.settled_in_manual).
Proof.
  assert (R : settled_render (Sample.run_events Sample.settled_in_manual)).
  { split; [vm_compute; reflexivity|].
    split; [vm_compute; reflexivity|vm_compute; constructor]. }
  assert (A : autoMode (Sample.run_events Sample.settled_in_manual) = false)
    by (vm_compute; reflexivity).
  destruct (manual_mode_sends_on_trigger_only ascii_toLowerCase Sample.secret
              (Sample.run_events Sample.settled_in_manual) R A)
    as (_ & Click & Others).
  split.
  - apply Click; vm_compute; reflexivity.
  - apply (Others (Edit (lit "nam"))); discriminate.
Defined.

(** X15: An answer ends the loading, whatever else is in flight. In every state
    the component reaches, when the service answers a call in flight, with
    a response or with a failure, the loading indicator is off afterwards
    and the other calls are still in flight. *)
Theorem any_answer_ends_loading :
  forall (toLowerCase : jsstring -> jsstring) (API_KEY : option jsstring)
         (s : state) (r : nat) (q : request)
         (a : settled GenerateContentResponse),
    reachable toLowerCase API_KEY s ->
    find (fun x => Nat.eqb (rid x) r) (inflight s) = Some q ->
    isLoading (step toLowerCase API_KEY s (Reply r a)) = false
    /\ inflight (step toLowerCase API_KEY s (Reply r a))
       = filter (fun x => negb (Nat.eqb (rid x) r)) (inflight s).
Proof.
  intros toLowerCase API_KEY s r q a Rc F.
  pose proof (reachable_settled_render toLowerCase API_KEY s Rc) as R.
  destruct (reachable_core toLowerCase API_KEY s Rc) as (I & _).
  pose proof (find_some _ _ F) as [Hq _].
  rewrite Forall_forall in I; destruct (I q Hq) as [_ Hk].
  cbn [step].
  rewrite (reply_found toLowerCase r a s q F (Hk a)).
  rewrite (render_after_frame toLowerCase API_KEY s _ R).
  - unfold drive, handleTransliterate_settled.
    destruct a as [resp|e]; cbn [after_await poll]; [|split; reflexivity].
    destruct ((2 <? List.length (rtext q)) && truthy _); split; reflexivity.
  - eapply frame_trans; [|apply drive_frame]; repeat split.
Qed.

Lemma any_answer_ends_loading_witness :
  isLoading (step ascii_toLowerCase Sample.secret
               (Sample.run_events Sample.two_in_flight)
               (Reply 1 (Sample.answer Sample.odia_kaba)))
  = false
  /\ map rid (inflight (step ascii_toLowerCase Sample.secret
                          (Sample.run_events Sample.two_in_flight)
                          (Reply 1 (Sample.answer Sample.odia_kaba))))
     = [0].
Proof.
  assert (F : exists q,
             find (fun x => Nat.eqb (rid x) 1)
               (inflight (Sample.run_events Sample.two_in_flight)) = Some q).
  { vm_compute; eexists; reflexivity. }
  destruct F as [q F].
  destruct (any_answer_ends_loading ascii_toLowerCase Sample.secret
              (Sample.run_events Sample.two_in_flight) 1 q
              (Sample.answer Sample.odia_kaba)
              (reachable_run_events Sample.two_in_flight) F)
    as [H1 H2].
  split; [exact H1|].
  rewrite H2; vm_compute; reflexivity.
Defined.

(** X16: Clearing does not cancel. In every state the component reaches, the
    clear button empties the input and the output and removes the error but
    leaves the calls in flight and the loading indicator as they are; when
    the service then answers one of those calls, its result is shown as the
    output, next to the empty input. *)
Theorem clear_keeps_calls_in_flight :
  forall (toLowerCase : jsstring -> jsstring) (API_KEY : option jsstring)
         (s : state) (r : nat) (q : request) (resp : GenerateContentResponse),
    reachable toLowerCase API_KEY s ->
    find (fun x => Nat.eqb (rid x) r) (inflight s) = Some q ->
    let s1 := step toLowerCase API_KEY s ClearAll in
    let s2 := step toLowerCase API_KEY s1 (Reply r (Fulfilled resp)) in
    inputText s1 = []
    /\ outputText s1 = []
    /\ error s1 = None
    /\ inflight s1 = inflight s
    /\ isLoading s1 = isLoading s
    /\ inputText s2 = []
    /\ outputText s2 = match text resp with Some t => trim t | None => [] end.
Proof.
  intros toLowerCase API_KEY s r q resp Rc F s1 s2.
  pose proof (reachable_settled_render toLowerCase API_KEY s Rc) as R.
  destruct (reachable_core toLowerCase API_KEY s Rc) as (I & _).
  pose proof (find_some _ _ F) as [Hq _].
  rewrite Forall_forall in I; destruct (I q Hq) as [_ Hk].
  pose proof (step_settled_render toLowerCase API_KEY s ClearAll R) as R1.
  fold s1 in R1.
  assert (E1 : s1 = with_debounced
                      (Debounce.render Object_is (clock s) [] 800 (debounced s))
                      (setError None (setOutputText [] (setInputText [] s)))).
  { subst s1; cbn [step]; rewrite render_no_effect; [reflexivity|apply R]. }
  assert (F1 : find (fun x => Nat.eqb (rid x) r) (inflight s1) = Some q)
    by (rewrite E1; exact F).
  destruct (reply_fulfilled toLowerCase API_KEY s1 s1 r q resp R1
              (frame_refl s1) F1 Hk) as (O & _ & _ & _ & (Fi & _)).
  fold s2 in O, Fi.
  rewrite Fi, O, or_else_trim, E1; repeat split.
Qed.

Lemma clear_keeps_calls_in_flight_witness :
  inputText
    (step ascii_toLowerCase Sample.secret
       (step ascii_toLowerCase Sample.secret
          (Sample.run_events [Edit (lit "ka"); Elapse 800]) ClearAll)
       (Reply 0 (Fulfilled {| text := Some Sample.odia_ka |})))
  = []
  /\ outputText
       (step ascii_toLowerCase Sample.secret
          (step ascii_toLowerCase Sample.secret
             (Sample.run_events [Edit (lit "ka"); Elapse 800]) ClearAll)
          (Reply 0 (Fulfilled {| text := Some Sample.odia_ka |})))
     = Sample.odia_ka.
Proof.
  assert (F : exists q,
             find (fun x => Nat.eqb (rid x) 0)
               (inflight (Sample.run_events [Edit (lit "ka"); Elapse 800]))
             = Some q).
  { vm_compute; eexists; reflexivity. }
  destruct F as [q F].
  destruct (clear_keeps_calls_in_flight ascii_toLowerCase Sample.secret
              (Sample.run_events [Edit (lit "ka"); Elapse 800]) 0 q
              {| text := Some Sample.odia_ka |}
              (reachable_run_events [Edit (lit "ka"); Elapse 800]) F)
    as (_ & _ & _ & _ & _ & H6 & H7).
  split; [exact H6|exact H7].
Defined.

Lemma steps_app toLowerCase API_KEY s es1 es2 :
  steps toLowerCase API_KEY s (es1 ++ es2)
  = steps toLowerCase API_KEY (steps toLowerCase API_KEY s es1) es2.
Proof. apply fold_left_app. Qed.

(** While the user goes on typing, nothing reaches the client: the timeout
    is set anew by every edit before it can run. *)
Lemma keystrokes_quiet toLowerCase API_KEY (us : list (N * jsstring)) :
  forall (s : state),
    settled_render s ->
    Debounce.handler (debounced s) = Some ((clock s + 800)%N, inputText s) ->
    quick (inputText s) us ->
    settled_render (steps toLowerCase API_KEY s (keystrokes us))
    /\ inputText (steps toLowerCase API_KEY s (keystrokes us))
       = last (map snd us) (inputText s)
    /\ Debounce.handler (debounced (steps toLowerCase API_KEY s (keystrokes us)))
       = Some ((clock (steps toLowerCase API_KEY s (keystrokes us)) + 800)%N,
               last (map snd us) (inputText s))
    /\ Debounce.debouncedValue (debounced (steps toLowerCase API_KEY s (keystrokes us)))
       = Debounce.debouncedValue (debounced s)
    /\ autoMode (steps toLowerCase API_KEY s (keystrokes us)) = autoMode s
    /\ calls (steps toLowerCase API_KEY s (keystrokes us)) = calls s
    /\ effects (steps toLowerCase API_KEY s (keystrokes us)) = effects s
    /\ isLoading (steps toLowerCase API_KEY s (keystrokes us)) = isLoading s
    /\ outputText (steps toLowerCase API_KEY s (keystrokes us)) = outputText s.
Proof.
  induction us as [|[gap v] us IH]; intros s R H Q.
  - cbn [keystrokes flat_map steps fold_left map last].
    repeat split; try reflexivity; try apply R; exact H.
  - destruct Q as (G & NV & Q).
    change (keystrokes ((gap, v) :: us))
      with (Elapse gap :: Edit v :: keystrokes us).
    change (steps toLowerCase API_KEY s (Elapse gap :: Edit v :: keystrokes us))
      with (steps toLowerCase API_KEY
              (step toLowerCase API_KEY
                 (step toLowerCase API_KEY s (Elapse gap)) (Edit v))
              (keystrokes us)).
    assert (EA : step toLowerCase API_KEY s (Elapse gap)
                 = with_clock (clock s + gap) s).
    { apply (elapse_early toLowerCase API_KEY s gap _ _ H); lia. }
    pose proof (step_settled_render toLowerCase API_KEY s (Elapse gap) R) as RA.
    rewrite EA in *.
    set (sA := with_clock (clock s + gap) s) in *.
    assert (EB : step toLowerCase API_KEY sA (Edit v)
                 = with_debounced
                     {| Debounce.debouncedValue := Debounce.debouncedValue (debounced sA);
                        Debounce.deps := (v, 800%N);
                        Debounce.handler := Some ((clock sA + 800)%N, v) |}
                     (setInputText v sA))
      by (apply (edit_step toLowerCase API_KEY sA v RA); exact NV).
    pose proof (step_settled_render toLowerCase API_KEY sA (Edit v) RA) as RB.
    rewrite EB in *.
    set (sB := with_debounced _ _) in *.
    destruct (IH sB RB eq_refl Q)
      as (I1 & I2 & I3 & I4 & I5 & I6 & I7 & I8 & I9).
    cbn [map snd]; rewrite last_cons.
    split; [exact I1|].
    split; [exact I2|].
    split; [exact I3|].
    split; [exact I4|].
    split; [exact I5|].
    split; [exact I6|].
    split; [exact I7|].
    split; [exact I8|exact I9].
Qed.

(** X17: What the debouncer is for. In automatic mode the user types: a first
    edit that changes the input, then further edits, each less than 800 ms
    after the one before and each changing the input. While the typing goes
    on nothing reaches the client or the service and the output stays as it
    was. 800 ms after the last edit the debounced input is the last text,
    and, when that text is not blank and not the debounced input from before
    the typing, the client is called exactly once, with the last text;
    with a credential this sends one request, for the last text, and turns
    the loading indicator on. *)
Theorem burst_of_edits_sends_one_request :
  forall (toLowerCase : jsstring -> jsstring) (API_KEY : option jsstring)
         (s : state) (v1 : jsstring) (us : list (N * jsstring)),
    settled_render s ->
    autoMode s = true ->
    v1 <> inputText s ->
    quick v1 us ->
    last (map snd us) v1 <> Debounce.debouncedValue (debounced s) ->
    truthy (trim (last (map snd us) v1)) = true ->
    let typed := steps toLowerCase API_KEY s (Edit v1 :: keystrokes us) in
    let s' := step toLowerCase API_KEY typed (Elapse 800) in
    calls typed = calls s
    /\ effects typed = effects s
    /\ outputText typed = outputText s
    /\ Debounce.debouncedValue (debounced s') = last (map snd us) v1
    /\ calls s' = calls s ++ [last (map snd us) v1]
    /\ (truthy (apiKey API_KEY) = true ->
        network s' = network s ++ [Requested (the_request (last (map snd us) v1))]
        /\ isLoading s' = true).
Proof.
  intros toLowerCase API_KEY s v1 us R A NI Q ND W typed s'.
  set (v := last (map snd us) v1) in *.
  pose proof (step_settled_render toLowerCase API_KEY s (Edit v1) R) as R1.
  pose proof (edit_step toLowerCase API_KEY s v1 R NI) as E1.
  assert (T : typed = steps toLowerCase API_KEY
                        (step toLowerCase API_KEY s (Edit v1)) (keystrokes us))
    by reflexivity.
  clearbody typed.
  rewrite E1 in R1, T.
  set (s1 := with_debounced _ (setInputText v1 s)) in *.
  destruct (keystrokes_quiet toLowerCase API_KEY us s1 R1 eq_refl Q)
    as (Rt & It & Ht & Dt & At & Ct & Et & Lt & Ot).
  rewrite <- T in *.
  change (last (map snd us) (inputText s1)) with v in *.
  destruct (elapse_fires toLowerCase API_KEY typed 800 _ v Rt Ht (N.le_refl _))
    as (Y & St & _ & _ & _ & _ & _ & EY).
  { rewrite Dt; exact ND. }
  fold s' in St.
  assert (YA : autoMode Y = true).
  { rewrite EY; cbn [autoMode with_effectDeps with_debounced with_clock].
    rewrite At; exact A. }
  assert (YD : Debounce.debouncedValue (debounced Y) = v)
    by (rewrite EY; reflexivity).
  assert (YC : calls Y = calls s).
  { rewrite EY; cbn [calls with_effectDeps with_debounced with_clock].
    rewrite Ct; reflexivity. }
  assert (YE : effects Y = effects s).
  { rewrite EY; cbn [effects with_effectDeps with_debounced with_clock].
    rewrite Et; reflexivity. }
  assert (AE : autoEffect toLowerCase API_KEY Y
               = handleTransliterate toLowerCase API_KEY v Y).
  { unfold autoEffect; rewrite YA, YD, (truthy_trim v W); reflexivity. }
  rewrite AE in St.
  split; [rewrite Ct; reflexivity|].
  split; [rewrite Et; reflexivity|].
  split; [rewrite Ot; reflexivity|].
  rewrite St; cbn [debounced calls isLoading with_clock].
  destruct (handleTransliterate_frame toLowerCase API_KEY v Y) as (_ & _ & F3 & _).
  split; [rewrite F3; exact YD|].
  split; [rewrite calls_handleTransliterate, W, YC; reflexivity|].
  intros K.
  destruct (handleTransliterate_dispatch toLowerCase API_KEY v Y K W)
    as (k & _ & Eq).
  rewrite Eq; split; [|reflexivity].
  unfold network, requests.
  cbn [effects with_clock suspend perform called setError setIsLoading].
  rewrite YE, filter_app; reflexivity.
Qed.

Lemma burst_of_edits_sends_one_request_witness :
  calls (step ascii_toLowerCase Sample.secret
           (steps ascii_toLowerCase Sample.secret Sample.fresh
              (Edit (lit "n")
               :: keystrokes [(200, lit "na"); (750, lit "nam"); (10, lit "nama")]%N))
           (Elapse 800))
  = calls Sample.fresh ++ [lit "nama"].
Proof.
  assert (R : settled_render Sample.fresh).
  { split; [vm_compute; reflexivity|].
    split; [vm_compute; reflexivity|vm_compute; constructor]. }
  assert (Q : quick (lit "n") [(200, lit "na"); (750, lit "nam"); (10, lit "nama")]%N).
  { simpl; repeat split; try lia; discriminate. }
  destruct (burst_of_edits_sends_one_request ascii_toLowerCase Sample.secret
              Sample.fresh (lit "n")
              [(200, lit "na"); (750, lit "nam"); (10, lit "nama")]%N
              R eq_refl)
    as (_ & _ & _ & _ & H & _);
    [discriminate|exact Q|discriminate|reflexivity|exact H].
Defined.

Lemma transliterate_outcomes_witness :
  new_Error FAILED = new_Error KEY_MISSING \/ new_Error FAILED = new_Error FAILED.
Proof.
  destruct (transliterate_outcomes Sample.secret
              (fun _ _ => Rejected {| message := Some (lit "503 overloaded") |})
              (lit "namaskar")) as (_ & H & _).
  apply H; reflexivity.
Defined.

Lemma prompt_determines_input_witness :
  lit "namaskar" = lit "namaskar".
Proof.
  apply (prompt_determines_input (lit "namaskar") (lit "namaskar")).
  reflexivity.
Defined.

(* ================================================================== *)
(** ** The history panel and the banner *)
(* ================================================================== *)

(** X18: The banner and the client agree: the banner "API Key missing" is
    rendered exactly when every call of [transliterateToOdia], whatever its
    input, throws the configuration error without reaching the service. *)
Theorem banner_shown_iff_client_refuses :
  forall API_KEY : option jsstring,
    Banner.hasApiKey API_KEY = false
    <-> (forall (svc : service) (input : jsstring),
            run svc (transliterateToOdia API_KEY input)
            = ([], Rejected (new_Error KEY_MISSING))).
Proof.
  intros API_KEY.
  assert (E : Banner.hasApiKey API_KEY = truthy (apiKey API_KEY)).
  { destruct API_KEY as [[|c k]|]; reflexivity. }
  rewrite E; split.
  - intros K svc input.
    rewrite (transliterateToOdia_absent _ input K); reflexivity.
  - intros H.
    destruct (truthy (apiKey API_KEY)) eqn:K; [|reflexivity].
    specialize (H (fun _ _ => Rejected {| message := None |}) (lit "a")).
    rewrite (run_request API_KEY (lit "a") _ K eq_refl) in H.
    discriminate H.
Qed.

Lemma banner_shown_iff_client_refuses_witness :
  run (fun _ _ => Sample.answer odia_namaskar)
      (transliterateToOdia (Some []) (lit "namaskar"))
  = ([], Rejected (new_Error KEY_MISSING)).
Proof.
  apply (proj1 (banner_shown_iff_client_refuses (Some []))); reflexivity.
Defined.

Lemma nth_error_map_inv {A B} (f : A -> B) (l : list A) i y :
  nth_error (map f l) i = Some y ->
  exists x, nth_error l i = Some x /\ y = f x.
Proof.
  revert i; induction l as [|a l IH]; intros [|i] H; try discriminate H.
  - injection H as <-; exists a; split; reflexivity.
  - apply (IH i H).
Qed.

(** X19: In every state the component reaches, the history panel is absent
    exactly when the history is empty; when present it has between one and
    ten rows, and a click on a row makes the two texts the row shows the
    input and the output; and after the clear button of the panel the panel
    is absent. *)
Theorem history_panel_shows_the_history :
  forall (toLowerCase : jsstring -> jsstring) (API_KEY : option jsstring)
         (s : state),
    reachable toLowerCase API_KEY s ->
    (HistoryPanel.HistoryPanel (history s) = None <-> history s = [])
    /\ (forall rows : list HistoryPanel.row,
          HistoryPanel.HistoryPanel (history s) = Some rows ->
          1 <= List.length rows <= 10
          /\ forall (i : nat) (row : HistoryPanel.row),
               nth_error rows i = Some row ->
               inputText (step toLowerCase API_KEY s (Select i))
               = HistoryPanel.shown_original row
               /\ outputText (step toLowerCase API_KEY s (Select i))
                  = HistoryPanel.shown_transliterated row)
    /\ HistoryPanel.HistoryPanel (history (step toLowerCase API_KEY s ClearHistory))
       = None.
Proof.
  intros toLowerCase API_KEY s Rc.
  pose proof (reachable_settled_render toLowerCase API_KEY s Rc) as R.
  assert (L : List.length (history s) <= 10).
  { apply (reachable_history toLowerCase API_KEY
             (fun h => List.length h <= 10)); [apply Nat.le_0_l| |exact Rc].
    intros t i r h _; apply upsert_length. }
  unfold HistoryPanel.HistoryPanel.
  split; [|split].
  - destruct (history s); cbn; split; intros H; try reflexivity; discriminate H.
  - intros rows H.
    destruct (history s) as [|p h] eqn:Eh; [discriminate H|].
    cbn [List.length Nat.eqb] in H; injection H as <-.
    split; [cbn [map List.length] in *; rewrite length_map; lia|].
    intros i row Hi.
    change (nth_error
              (map (fun item =>
                      {| HistoryPanel.key := id item;
                         HistoryPanel.shown_original := original item;
                         HistoryPanel.shown_transliterated := transliterated item |})
                   (p :: h)) i = Some row) in Hi.
    apply nth_error_map_inv in Hi; destruct Hi as (item & Hi & ->).
    rewrite <- Eh in Hi.
    rewrite (select_step toLowerCase API_KEY s i item R Hi).
    split; reflexivity.
  - cbn [step]; rewrite render_no_effect by apply R; reflexivity.
Qed.

Lemma history_panel_shows_the_history_witness :
  inputText (step ascii_toLowerCase Sample.secret
               (Sample.run_events Sample.two_entries) (Select 1))
  = lit "namaskar"
  /\ outputText (step ascii_toLowerCase Sample.secret
                   (Sample.run_events Sample.two_entries) (Select 1))
     = odia_namaskar.
Proof.
  destruct (history_panel_shows_the_history ascii_toLowerCase Sample.secret
              (Sample.run_events Sample.two_entries)
              (reachable_run_events Sample.two_entries)) as (_ & H & _).
  assert (P : HistoryPanel.HistoryPanel
                (history (Sample.run_events Sample.two_entries))
              = Some [ {| HistoryPanel.key := lit "1600";
                          HistoryPanel.shown_original := lit "mu bhala achi";
                          HistoryPanel.shown_transliterated := odia_mu_bhala_achi |};
                       {| HistoryPanel.key := lit "800";
                          HistoryPanel.shown_original := lit "namaskar";
                          HistoryPanel.shown_transliterated := odia_namaskar |} ])
    by (vm_compute; reflexivity).
  destruct (H _ P) as (_ & Rows).
  apply (Rows 1 _ eq_refl).
Defined.

(* ================================================================== *)
(** ** The copy button *)
(* ================================================================== *)

Lemma filter_nil_iff {A} (f : A -> bool) (l : list A) :
  filter f l = [] <-> Forall (fun x => f x = false) l.
Proof.
  induction l as [|a l IH]; cbn [filter]; [split; constructor|].
  destruct (f a) eqn:E; split; intros H.
  - discriminate H.
  - inversion H; congruence.
  - constructor; [exact E|apply IH; exact H].
  - apply IH; inversion H; assumption.
Qed.

Lemma filter_all {A} (f : A -> bool) (l : list A) :
  Forall (fun x => f x = true) l -> filter f l = l.
Proof.
  induction 1 as [|a l E _ IH]; cbn [filter]; [reflexivity|].
  rewrite E, IH; reflexivity.
Qed.

Lemma acknowledged_step c e :
  Clipboard.acknowledged c -> Clipboard.acknowledged (Clipboard.step c e).
Proof.
  intros [F N]; destruct e as [out|w|w err|dt]; cbn [Clipboard.step].
  - destruct (negb (truthy out)); split; assumption.
  - destruct (Clipboard.pending w c) as [[w' t]|]; [|split; assumption].
    split; cbn [Clipboard.resets Clipboard.clock Clipboard.isCopied].
    + apply Forall_app; split; [exact F|].
      constructor; [split; lia|constructor].
    + intros _ H; apply app_eq_nil in H; destruct H as [_ H]; discriminate H.
  - destruct (Clipboard.pending w c); split; assumption.
  - split; cbn [Clipboard.resets Clipboard.clock Clipboard.isCopied].
    + apply Forall_forall; intros d Hd.
      apply filter_In in Hd; destruct Hd as [Hd Late].
      apply negb_true_iff, N.leb_gt in Late.
      rewrite Forall_forall in F; destruct (F d Hd); split; lia.
    + destruct (filter (fun d => (d <=? Clipboard.clock c + dt)%N)
                  (Clipboard.resets c)) eqn:Due; [|discriminate].
      intros Cp.
      apply filter_nil_iff in Due.
      rewrite filter_all; [exact (N Cp)|].
      eapply Forall_impl; [|exact Due].
      intros d Hd; cbn in Hd; rewrite Hd; reflexivity.
Qed.

Lemma reachable_acknowledged c :
  Clipboard.reachable c -> Clipboard.acknowledged c.
Proof.
  induction 1 as [t0|c e _ IH]; [|apply acknowledged_step; exact IH].
  split; [constructor|discriminate].
Qed.

(** X20: "Copied" never sticks. In every state the copy button can reach, every
    pending timeout is due within 2000 ms and one is pending while "Copied"
    is shown; so once 2000 ms or more pass with no other event, "Copied" is
    no longer shown and no timeout is pending. *)
Theorem copied_is_gone_after_two_seconds :
  forall (c : Clipboard.state) (dt : N),
    Clipboard.reachable c ->
    (2000 <= dt)%N ->
    Clipboard.isCopied (Clipboard.step c (Clipboard.Elapse dt)) = false
    /\ Clipboard.resets (Clipboard.step c (Clipboard.Elapse dt)) = [].
Proof.
  intros c dt Rc L.
  destruct (reachable_acknowledged c Rc) as [F N].
  assert (Due : filter (fun d => (d <=? Clipboard.clock c + dt)%N)
                  (Clipboard.resets c) = Clipboard.resets c).
  { apply filter_all; eapply Forall_impl; [|exact F].
    intros d [_ Hd]; apply N.leb_le; lia. }
  cbn [Clipboard.step Clipboard.isCopied Clipboard.resets]; rewrite Due; split.
  - destruct (Clipboard.resets c) eqn:E; [|reflexivity].
    destruct (Clipboard.isCopied c); [|reflexivity].
    exfalso; apply (N eq_refl); reflexivity.
  - apply filter_nil_iff; eapply Forall_impl; [|exact F].
    intros d [_ Hd]; apply negb_false_iff, N.leb_le; lia.
Qed.

Lemma copied_is_gone_after_two_seconds_witness :
  Clipboard.isCopied
    (Clipboard.step
       (Clipboard.step
          (Clipboard.step (Clipboard.init 0) (Clipboard.Click odia_namaskar))
          (Clipboard.Written 0))
       (Clipboard.Elapse 2000))
  = false.
Proof.
  apply (copied_is_gone_after_two_seconds
           (Clipboard.step
              (Clipboard.step (Clipboard.init 0) (Clipboard.Click odia_namaskar))
              (Clipboard.Written 0))
           2000).
  - repeat apply Clipboard.reachable_step; apply Clipboard.reachable_init.
  - lia.
Defined.

(** X21: A copy that succeeds. When the browser fulfils a pending write, the
    text given to it is what was written and "Copied" is shown; as time
    passes it stays shown exactly as long as less than 2000 ms have passed
    and no timeout left by an earlier copy has come due: those timeouts are
    not cleared, so an earlier copy can end the acknowledgement of a later
    one early. *)
Theorem copied_lasts_until_the_first_timeout :
  forall (c : Clipboard.state) (w w' : nat) (t : jsstring) (dt : N),
    Clipboard.pending w c = Some (w', t) ->
    Clipboard.isCopied (Clipboard.step c (Clipboard.Written w)) = true
    /\ Clipboard.written (Clipboard.step c (Clipboard.Written w))
       = Clipboard.written c ++ [t]
    /\ (Clipboard.isCopied
          (Clipboard.step (Clipboard.step c (Clipboard.Written w))
             (Clipboard.Elapse dt)) = true
        <-> (dt < 2000)%N
            /\ Forall (fun d => (Clipboard.clock c + dt < d)%N) (Clipboard.resets c)).
Proof.
  intros c w w' t dt P; cbn [Clipboard.step]; rewrite P.
  cbn [Clipboard.step Clipboard.isCopied Clipboard.written Clipboard.resets
         Clipboard.clock].
  split; [reflexivity|split; [reflexivity|]].
  destruct (filter _ (Clipboard.resets c ++ [(Clipboard.clock c + 2000)%N]))
    eqn:Due.
  - apply filter_nil_iff, Forall_app in Due; destruct Due as [D1 D2].
    split; [intros _|reflexivity].
    inversion D2 as [|x l Hx _]; subst; apply N.leb_gt in Hx.
    split; [lia|].
    eapply Forall_impl; [|exact D1].
    intros d Hd; cbn in Hd; apply N.leb_gt in Hd; exact Hd.
  - split; [discriminate|].
    intros [L F]; exfalso.
    assert (Z : filter (fun d => (d <=? Clipboard.clock c + dt)%N)
                  (Clipboard.resets c ++ [(Clipboard.clock c + 2000)%N]) = []).
    { apply filter_nil_iff, Forall_app; split.
      - eapply Forall_impl; [|exact F]; intros d Hd; apply N.leb_gt; exact Hd.
      - constructor; [apply N.leb_gt; lia|constructor]. }
    rewrite Z in Due; discriminate Due.
Qed.

Lemma copied_lasts_until_the_first_timeout_witness :
  Clipboard.isCopied
    (Clipboard.step
       (Clipboard.step
          (Clipboard.step (Clipboard.init 0) (Clipboard.Click odia_namaskar))
          (Clipboard.Written 0))
       (Clipboard.Elapse 1999))
  = true.
Proof.
  apply (copied_lasts_until_the_first_timeout
           (Clipboard.step (Clipboard.init 0) (Clipboard.Click odia_namaskar))
           0 0 odia_namaskar 1999 eq_refl).
  split; [lia|constructor].
Defined.

(** X22: What the copy button never does. In every state it can reach, every
    text it has written or is writing to the clipboard is a non-empty
    output; a click while the output is empty changes nothing; and a write
    the browser refuses is reported on the console and changes neither
    "Copied" nor what was written. *)
Theorem copy_never_writes_empty_text :
  forall (c : Clipboard.state),
    Clipboard.reachable c ->
    Forall (fun t => t <> []) (Clipboard.written c)
    /\ Forall (fun p => snd p <> []) (Clipboard.writing c)
    /\ Clipboard.step c (Clipboard.Click []) = c
    /\ (forall (w : nat) (err : JsError) (p : nat * jsstring),
          Clipboard.pending w c = Some p ->
          Clipboard.isCopied (Clipboard.step c (Clipboard.Refused w err))
          = Clipboard.isCopied c
          /\ Clipboard.written (Clipboard.step c (Clipboard.Refused w err))
             = Clipboard.written c
          /\ Clipboard.failures (Clipboard.step c (Clipboard.Refused w err))
             = Clipboard.failures c ++ [err]).
Proof.
  intros c Rc.
  assert (I : Forall (fun t => t <> []) (Clipboard.written c)
              /\ Forall (fun p => snd p <> []) (Clipboard.writing c)).
  { induction Rc as [t0|c e _ [IW IP]]; [split; constructor|].
    destruct e as [out|w|w err|dt]; cbn [Clipboard.step].
    - destruct out as [|x out]; cbn [truthy negb]; [split; assumption|].
      split; [exact IW|].
      apply Forall_app; split; [exact IP|].
      constructor; [discriminate|constructor].
    - destruct (Clipboard.pending w c) as [[w' t]|] eqn:P; [|split; assumption].
      apply find_some in P; destruct P as [P _].
      rewrite Forall_forall in IP; pose proof (IP _ P) as Ht.
      split; cbn [Clipboard.written Clipboard.writing].
      + apply Forall_app; split; [exact IW|].
        constructor; [exact Ht|constructor].
      + apply Forall_filter_orig, Forall_forall; exact IP.
    - destruct (Clipboard.pending w c); [|split; assumption].
      split; [exact IW|].
      apply Forall_filter_orig; exact IP.
    - split; assumption. }
  destruct I as [IW IP].
  split; [exact IW|split; [exact IP|split; [reflexivity|]]].
  intros w err p P; cbn [Clipboard.step]; rewrite P; repeat split.
Qed.

Lemma copy_never_writes_empty_text_witness :
  Forall (fun t => t <> [])
    (Clipboard.written
       (Clipboard.step
          (Clipboard.step
             (Clipboard.step (Clipboard.init 0) (Clipboard.Click []))
             (Clipboard.Click odia_namaskar))
          (Clipboard.Written 0))).
Proof.
  apply (copy_never_writes_empty_text
           (Clipboard.step
              (Clipboard.step
                 (Clipboard.step (Clipboard.init 0) (Clipboard.Click []))
                 (Clipboard.Click odia_namaskar))
              (Clipboard.Written 0))).
  repeat apply Clipboard.reachable_step; apply Clipboard.reachable_init.
Defined.


(* ================================================================== *)
(** ** More on the history *)
(* ================================================================== *)

Lemma history_handleTransliterate toLowerCase API_KEY input s :
  history (handleTransliterate toLowerCase API_KEY input s) = history s.
Proof.
  destruct (truthy (trim input)) eqn:W.
  - destruct (truthy (apiKey API_KEY)) eqn:K.
    + destruct (handleTransliterate_dispatch toLowerCase API_KEY input s K W)
        as (k & _ & E).
      rewrite E; reflexivity.
    + rewrite (handleTransliterate_no_credential toLowerCase API_KEY input s K W).
      reflexivity.
  - unfold handleTransliterate; rewrite W; reflexivity.
Qed.

Lemma history_render toLowerCase API_KEY s :
  history (render toLowerCase API_KEY s) = history s.
Proof.
  unfold render; destruct (same_effectDeps _ _); [reflexivity|].
  unfold autoEffect.
  destruct (autoMode _ && truthy _);
    [rewrite history_handleTransliterate; reflexivity|].
  destruct (negb (truthy _)); reflexivity.
Qed.

(** X23: Only an answer of the service and the clear button of the panel change
    the history: every other event leaves it as it is, in any state. *)
Theorem history_changes_only_by_answer_or_clear :
  forall (toLowerCase : jsstring -> jsstring) (API_KEY : option jsstring)
         (s : state) (e : event),
    (forall r a, e <> Reply r a) ->
    e <> ClearHistory ->
    history (step toLowerCase API_KEY s e) = history s.
Proof.
  intros toLowerCase API_KEY s e NR NC.
  destruct e as [v| | | |i| |dt|r a]; cbn [step];
    try (rewrite history_render; reflexivity).
  - destruct (autoMode s || _); [reflexivity|].
    rewrite history_render; apply history_handleTransliterate.
  - destruct (nth_error (history s) i); [|reflexivity].
    rewrite history_render; reflexivity.
  - congruence.
  - destruct (Debounce.advance _ (debounced s)) as [h [|[d v] l]]; [reflexivity|].
    cbn [history with_clock]; rewrite history_render; reflexivity.
  - exfalso; apply (NR r a); reflexivity.
Qed.

Lemma history_changes_only_by_answer_or_clear_witness :
  history (step ascii_toLowerCase Sample.secret
             (Sample.run_events Sample.namaskar_done) ClearAll)
  = history (Sample.run_events Sample.namaskar_done).
Proof.
  apply (history_changes_only_by_answer_or_clear ascii_toLowerCase Sample.secret
           (Sample.run_events Sample.namaskar_done) ClearAll);
    [intros r a|]; discriminate.
Defined.

(** X24: A later upsert of the same text supersedes the earlier one. When two
    texts are the same but for case, upserting the first and then the second
    gives the history that upserting the second alone gives; in particular
    an upsert done twice is an upsert done once. And an upsert of a text
    the history already holds, but for case, does not make it longer. *)
Theorem later_upsert_supersedes_earlier :
  forall (toLowerCase : jsstring -> jsstring) (now1 now2 : N)
         (input1 result1 input2 result2 : jsstring) (prev : list HistoryItem),
    toLowerCase input1 = toLowerCase input2 ->
    upsert toLowerCase now2 input2 result2
      (upsert toLowerCase now1 input1 result1 prev)
    = upsert toLowerCase now2 input2 result2 prev
    /\ (1 <= occurrences toLowerCase input2 prev ->
        List.length (upsert toLowerCase now2 input2 result2 prev)
        <= List.length prev).
Proof.
  intros toLowerCase now1 now2 input1 result1 input2 result2 prev E.
  assert (S : forall x, same_original toLowerCase x input1
                        = same_original toLowerCase x input2).
  { intros x; unfold same_original; rewrite E; reflexivity. }
  split.
  - rewrite (upsert_shape toLowerCase now1), !(upsert_shape toLowerCase now2).
    f_equal; cbn [filter original newItem].
    rewrite <- S, same_original_refl; cbn [negb].
    set (f := fun p => negb (same_original toLowerCase (original p) input2)).
    assert (F1 : filter (fun p => negb (same_original toLowerCase (original p) input1))
                   prev = filter f prev).
    { apply filter_ext; intros p; unfold f; rewrite S; reflexivity. }
    rewrite F1, filter_all.
    + rewrite firstn_firstn; reflexivity.
    + apply Forall_firstn_orig, Forall_forall.
      intros p Hp; apply filter_In in Hp; tauto.
  - intros O; rewrite upsert_shape; cbn [List.length].
    rewrite length_firstn.
    unfold occurrences in O.
    assert (L : List.length
                  (filter (fun p => same_original toLowerCase (original p) input2)
                     prev)
                + List.length
                    (filter (fun p => negb (same_original toLowerCase
                                              (original p) input2)) prev)
                = List.length prev).
    { clear O; induction prev as [|p prev IH]; [reflexivity|].
      cbn [filter].
      destruct (same_original toLowerCase (original p) input2);
        cbn [negb List.length]; lia. }
    lia.
Qed.

Lemma later_upsert_supersedes_earlier_witness :
  upsert ascii_toLowerCase 9 (lit "NAMASKAR") odia_namaskar
    (upsert ascii_toLowerCase 5 (lit "namaskar") odia_namaskar
       [newItem 1 (lit "mu bhala achi") odia_mu_bhala_achi])
  = upsert ascii_toLowerCase 9 (lit "NAMASKAR") odia_namaskar
      [newItem 1 (lit "mu bhala achi") odia_mu_bhala_achi].
Proof.
  apply (later_upsert_supersedes_earlier ascii_toLowerCase 5 9
           (lit "namaskar") odia_namaskar (lit "NAMASKAR") odia_namaskar
           [newItem 1 (lit "mu bhala achi") odia_mu_bhala_achi]).
  reflexivity.
Defined.

(** X25: Typing and undoing sends nothing. In either mode, when the user types
    edits each less than 800 ms after the one before and ends on the text
    the debouncer had settled on, the timeout that runs 800 ms later changes
    nothing: the client is not called, nothing is sent, and the output is
    as it was. *)
Theorem typing_back_sends_nothing :
  forall (toLowerCase : jsstring -> jsstring) (API_KEY : option jsstring)
         (s : state) (v1 : jsstring) (us : list (N * jsstring)),
    settled_render s ->
    v1 <> inputText s ->
    quick v1 us ->
    last (map snd us) v1 = Debounce.debouncedValue (debounced s) ->
    let s' := step toLowerCase API_KEY
                (steps toLowerCase API_KEY s (Edit v1 :: keystrokes us))
                (Elapse 800) in
    calls s' = calls s
    /\ effects s' = effects s
    /\ outputText s' = outputText s
    /\ Debounce.debouncedValue (debounced s') = Debounce.debouncedValue (debounced s)
    /\ Debounce.handler (debounced s') = None.
Proof.
  intros toLowerCase API_KEY s v1 us R NI Q Back s'.
  pose proof (step_settled_render toLowerCase API_KEY s (Edit v1) R) as R1.
  pose proof (edit_step toLowerCase API_KEY s v1 R NI) as E1.
  set (typed := steps toLowerCase API_KEY s (Edit v1 :: keystrokes us)) in *.
  assert (T : typed = steps toLowerCase API_KEY
                        (step toLowerCase API_KEY s (Edit v1)) (keystrokes us))
    by reflexivity.
  clearbody typed.
  rewrite E1 in R1, T.
  set (s1 := with_debounced _ (setInputText v1 s)) in *.
  destruct (keystrokes_quiet toLowerCase API_KEY us s1 R1 eq_refl Q)
    as (Rt & It & Ht & Dt & At & Ct & Et & Lt & Ot).
  rewrite <- T in *.
  change (last (map snd us) (inputText s1)) with (last (map snd us) v1) in *.
  change (Debounce.debouncedValue (debounced s1))
    with (Debounce.debouncedValue (debounced s)) in Dt.
  change (calls s1) with (calls s) in Ct.
  change (effects s1) with (effects s) in Et.
  change (outputText s1) with (outputText s) in Ot.
  rewrite Back in *.
  destruct Rt as (Dd & Ee & _).
  subst s'; cbn [step].
  rewrite (advance_due jsstring _ _ _ (debounced typed) Ht (N.le_refl _)).
  rewrite render_no_effect.
  - cbn [calls effects outputText debounced with_clock with_debounced clock
           inputText].
    rewrite (render_same jsstring Object_is 800) by exact Dd.
    rewrite Ct, Et, Ot; repeat split.
  - cbn [effectDeps autoMode debounced with_debounced with_clock
           Debounce.debouncedValue].
    rewrite Ee, Dt; reflexivity.
Qed.

Lemma typing_back_sends_nothing_witness :
  calls (step ascii_toLowerCase Sample.secret
           (steps ascii_toLowerCase Sample.secret
              (Sample.run_events Sample.namaskar_done)
              (Edit (lit "namaskara") :: keystrokes [(300, lit "namaskar")]%N))
           (Elapse 800))
  = calls (Sample.run_events Sample.namaskar_done).
Proof.
  assert (R : settled_render (Sample.run_events Sample.namaskar_done)).
  { split; [vm_compute; reflexivity|].
    split; [vm_compute; reflexivity|vm_compute; constructor]. }
  assert (NI : lit "namaskara" <> inputText (Sample.run_events Sample.namaskar_done))
    by (vm_compute; discriminate).
  assert (Q : quick (lit "namaskara") [(300, lit "namaskar")]%N).
  { simpl; repeat split; try lia; discriminate. }
  assert (B : last (map snd [(300, lit "namaskar")]%N) (lit "namaskara")
              = Debounce.debouncedValue
                  (debounced (Sample.run_events Sample.namaskar_done)))
    by (vm_compute; reflexivity).
  destruct (typing_back_sends_nothing ascii_toLowerCase Sample.secret
              (Sample.run_events Sample.namaskar_done) (lit "namaskara")
              [(300, lit "namaskar")]%N R NI Q B) as (H & _).
  exact H.
Defined.
